(** * A shallow embedding of the dictation tool's quiz engine

    [model.py] (word entries and the word-list loader) and [engine.py]
    (the quiz state machine with its persisted wrong-word set) are embedded
    as executable definitions; the theorems at the end of the file settle
    the engine's specification against them.  The window of [main.py] is
    embedded as far as it drives the engine; properties of the loader, of
    play and of the window follow the specification's.

    Modelling conventions.
    - A Python [str] is a [string] whose characters are read as code points
      below 256.  On that range [str.strip], [str.lower], [str.split] and
      the [in] test are modelled exactly.  The text of a cell of a unit
      file may hold the zero-width space U+200B besides, which the loader
      deletes.
    - A Python [int] is a [Z]; list indexing follows Python, negative
      indices included, and raises [IndexError] out of range.
    - [Set[WordEntry]] is a [gset WordEntry]: the dataclass is frozen and
      compares and hashes by its three fields.
    - Everything outside the object (the two storage areas, standard output
      and the random generator) is gathered in a [World] that the
      operations thread explicitly, together with the engine object.
    - The wrong-word file is kept as the JSON value it holds, not as text;
      it may be missing or unreadable, and writing it may fail, in which
      case the engine prints an error and goes on.  Under a name of an
      object it holds a string, a list or an object; numbers, booleans and
      null there would give entries that are no [WordEntry].
    - [random.shuffle] is its own loop, driven by an arbitrary sequence of
      draws. *)

From Stdlib Require Import ZArith NArith Ascii.
From stdpp Require Import base option list strings countable gmap sets.

Open Scope Z_scope.

(* ===================================================================== *)
(** * Python strings *)
(* ===================================================================== *)

Module PyStr.

(** [c.isspace()] for a code point below 256: TAB..CR, FS..US, SPACE,
    NEL and NBSP. *)
Definition isspace (c : ascii) : bool :=
  let n := N_of_ascii c in
  ((9 <=? n) && (n <=? 13) || (28 <=? n) && (n <=? 32)
   || (n =? 133) || (n =? 160))%N.

(** [c.lower()]: A..Z and the accented capitals (all of 0xC0..0xDE but
    the multiplication sign) move up by 32. *)
Definition lower_char (c : ascii) : ascii :=
  let n := N_of_ascii c in
  if ((65 <=? n) && (n <=? 90)
      || (192 <=? n) && (n <=? 222) && negb (n =? 215))%N
  then ascii_of_N (n + 32) else c.

Fixpoint lower (s : string) : string :=
  match s with
  | EmptyString => EmptyString
  | String c r => String (lower_char c) (lower r)
  end.

Fixpoint lstrip (s : string) : string :=
  match s with
  | EmptyString => EmptyString
  | String c r => if isspace c then lstrip r else s
  end.

Definition rstrip (s : string) : string :=
  String.rev (lstrip (String.rev s)).

(** [s.strip()] *)
Definition strip (s : string) : string := rstrip (lstrip s).

(** [s.split(sep)] for a one-character separator: never empty. *)
Fixpoint split (sep : ascii) (s : string) : list string :=
  match s with
  | EmptyString => [EmptyString]
  | String c r =>
      if Ascii.eqb c sep then EmptyString :: split sep r
      else match split sep r with
           | hd :: tl => String c hd :: tl
           | [] => [String c EmptyString]
           end
  end.

(** [c in s] for a one-character [c]. *)
Fixpoint contains (c : ascii) (s : string) : bool :=
  match s with
  | EmptyString => false
  | String c' r => if Ascii.eqb c' c then true else contains c r
  end.

(** [s.replace(a, b)] for one-character [a] and [b]. *)
Fixpoint replace (a b : ascii) (s : string) : string :=
  match s with
  | EmptyString => EmptyString
  | String c r => String (if Ascii.eqb c a then b else c) (replace a b r)
  end.

(** [not s] *)
Definition is_empty (s : string) : bool :=
  match s with EmptyString => true | _ => false end.

(** ** Words to describe strings *)

(** The characters of a string. *)
Definition chars_of (s : string) : list ascii :=
  String.list_ascii_of_string s.

(** Nothing but white space. *)
Definition blank (s : string) : Prop :=
  Forall (fun c => isspace c = true) (chars_of s).

Definition starts_blank (s : string) : Prop :=
  match s with
  | String c _ => isspace c = true
  | EmptyString => False
  end.

Definition ends_blank (s : string) : Prop := starts_blank (String.rev s).

End PyStr.

(* ===================================================================== *)
(** * Python lists and exceptions *)
(* ===================================================================== *)

Inductive exn :=
| IndexError | AttributeError | TypeError | OSError | JSONDecodeError.

Inductive outcome (A : Type) :=
| Return (a : A)
| Raise (e : exn).
Arguments Return {A} a.
Arguments Raise {A} e.

(** [l[i]]: a negative index counts from the end. *)
Definition py_index {A} (l : list A) (i : Z) : outcome A :=
  let n := Z.of_nat (length l) in
  let k := if i <? 0 then i + n else i in
  if (k <? 0) || (n <=? k) then Raise IndexError
  else match l !! Z.to_nat k with
       | Some a => Return a
       | None => Raise IndexError
       end.

(* ===================================================================== *)
(** * model.py *)
(* ===================================================================== *)

(** [@dataclass(frozen=True) class WordEntry] *)
Record WordEntry := mkWordEntry {
  english : string;
  chinese : string;
  examples : string;
}.

Global Instance WordEntry_eq_dec : EqDecision WordEntry.
Proof. solve_decision. Defined.

Global Instance WordEntry_countable : Countable WordEntry.
Proof.
  refine (inj_countable'
            (fun w => (english w, chinese w, examples w))
            (fun t => mkWordEntry t.1.1 t.1.2 t.2) _).
  by intros [].
Defined.

Module Model.

(** A character of a cell of a unit file: a code point below 256, or the
    zero-width space U+200B, which [_sanitize_string] deletes (so that
    what it returns is a [string] again). *)
Inductive cell_char :=
| Latin (c : ascii)
| ZeroWidthSpace.

Definition text := list cell_char.

(** A string as the text of a cell. *)
Definition plain (s : string) : text := Latin <$> PyStr.chars_of s.

(** [text.replace('\u200b', '')] *)
Fixpoint remove_zero_width (text : text) : string :=
  match text with
  | [] => EmptyString
  | Latin c :: rest => String c (remove_zero_width rest)
  | ZeroWidthSpace :: rest => remove_zero_width rest
  end.

(** [_sanitize_string].  [None] is a missing cell. *)
Definition _sanitize_string (text : option text) : string :=
  match text with
  | None | Some [] => EmptyString
  | Some text =>
      let text := remove_zero_width text in
      let text := PyStr.replace "160"%char " "%char text in
      PyStr.strip text
  end.

(** What [csv.DictReader] yields for one line: the cell under each of the
    three headers, [None] where the header or the cell is missing (the
    empty default of [row.get] and the reader's [None] are sanitized to
    the same empty string). *)
Record csv_row := mkRow {
  cell_english : option text;
  cell_chinese : option text;
  cell_examples : option text;
}.

(** A unit file as the reading loop sees it: the rows it yields and
    whether reading then stops with an exception ([open] failing is
    no row and an exception). *)
Record csv_file := mkCsv {
  csv_rows : list csv_row;
  csv_raises : bool;
}.

(** A path is the list of components given to [os.path.join]. *)
Definition path := list string.

(** The word-list storage. [fs_listdir] is [None] where [os.listdir]
    raises. *)
Record FileSystem := mkFS {
  fs_exists : path -> bool;
  fs_isdir : path -> bool;
  fs_isfile : path -> bool;
  fs_listdir : path -> option (list string);
  fs_csv : path -> csv_file;
}.

Record DataLoader := mkLoader { data_directory : string }.

Inductive message :=
| ErrorScanningBooks
| ErrorScanningUnits (book : string)
| WarningFileNotFound (p : path)
| ErrorReading (p : path).

(** [get_available_books]: the result and what is printed. *)
Definition get_available_books (self : DataLoader) (fs : FileSystem)
  : list string * list message :=
  if negb (fs_exists fs [data_directory self]) then ([], [])
  else match fs_listdir fs [data_directory self] with
       | Some names =>
           (filter (fun d => fs_isdir fs [data_directory self; d] = true)
                   names, [])
       | None => ([], [ErrorScanningBooks])
       end.

Definition endswith_csv (f : string) : bool :=
  match String.rev f with
  | String "v" (String "s" (String "c" (String "." _))) => true
  | _ => false
  end.

(** [get_units_for_book] *)
Definition get_units_for_book (self : DataLoader) (fs : FileSystem)
    (book_name : string) : list string * list message :=
  let book_path := [data_directory self; book_name] in
  if negb (fs_exists fs book_path) then ([], [])
  else match fs_listdir fs book_path with
       | Some names =>
           (filter (fun f => endswith_csv f && fs_isfile fs (book_path ++ [f])
                             = true) names, [])
       | None => ([], [ErrorScanningUnits book_name])
       end.

Definition entry_of_row (row : csv_row) : WordEntry :=
  {| english := _sanitize_string (cell_english row);
     chinese := _sanitize_string (cell_chinese row);
     examples := _sanitize_string (cell_examples row) |}.

(** The inner [for row in reader] loop: rows with an empty english field
    are dropped. *)
Definition read_rows (rows : list csv_row) : list WordEntry :=
  filter (fun entry => PyStr.is_empty (english entry) = false)
         (entry_of_row <$> rows).

(** [load_word_list]: the outer loop over the unit files. *)
Fixpoint load_word_list_from (self : DataLoader) (fs : FileSystem)
    (book_name : string) (unit_files : list string)
    (all_entries : list WordEntry) (out : list message)
  : list WordEntry * list message :=
  match unit_files with
  | [] => (all_entries, out)
  | unit_file :: rest =>
      let file_path := [data_directory self; book_name; unit_file] in
      if negb (fs_exists fs file_path) then
        load_word_list_from self fs book_name rest all_entries
          (out ++ [WarningFileNotFound file_path])
      else
        let f := fs_csv fs file_path in
        load_word_list_from self fs book_name rest
          (all_entries ++ read_rows (csv_rows f))
          (if csv_raises f then out ++ [ErrorReading file_path] else out)
  end.

Definition load_word_list (self : DataLoader) (fs : FileSystem)
    (book_name : string) (unit_files : list string)
  : list WordEntry * list message :=
  load_word_list_from self fs book_name unit_files [] [].

End Model.

(* ===================================================================== *)
(** * The [random] module *)
(* ===================================================================== *)

Module Random.

(** The generator: the sequence of raw draws it will produce and how many
    have been consumed. *)
Record RandomState := mkRandom {
  draws : nat -> nat;
  consumed : nat;
}.

(** [_randbelow(n)]: some number below [n]. *)
Definition randbelow (n : nat) (g : RandomState) : nat * RandomState :=
  ((draws g (consumed g) `mod` n)%nat,
   {| draws := draws g; consumed := S (consumed g) |}).

(** [x[i], x[j] = x[j], x[i]] *)
Definition swap {A} (x : list A) (i j : nat) : list A :=
  match x !! j, x !! i with
  | Some xj, Some xi => <[j:=xi]> (<[i:=xj]> x)
  | _, _ => x
  end.

(** Exchanging positions [i] and [j], as a map on positions. *)
Definition transpose (i j k : nat) : nat :=
  if decide (k = i) then j else if decide (k = j) then i else k.

(** The body of [shuffle] for [i] running from its first argument down
    to 1. *)
Fixpoint shuffle_from {A} (i : nat) (x : list A) (g : RandomState)
  : list A * RandomState :=
  match i with
  | O => (x, g)
  | S i' =>
      let '(j, g') := randbelow (S i) g in
      shuffle_from i' (swap x i j) g'
  end.

(** [random.shuffle(x)]:
    [for i in reversed(range(1, len(x))): j = randbelow(i + 1); swap]. *)
Definition shuffle {A} (x : list A) (g : RandomState)
  : list A * RandomState :=
  shuffle_from (length x - 1)%nat x g.

End Random.

(* ===================================================================== *)
(** * The persisted wrong-word file *)
(* ===================================================================== *)

Module Store.

(** A value found under a name in an object.  The load looks at its kind
    only: a string, or a list or an object, neither of which can be
    hashed.  A number, a boolean or null under a name is left out: from
    such a value Python builds an entry that is no [WordEntry], whose
    fields are [str], and the engine's state has no place for it. *)
Inductive member :=
| MStr (s : string)
| MList
| MDict.

(** What [json.load] returns. *)
#[local] Set Warnings "-register-all".
Inductive json :=
| JNull
| JBool (b : bool)
| JNum (n : Z)
| JStr (s : string)
| JArr (items : list json)
| JObj (members : list (string * member)).

(** [wrong_words.json]: missing, present but such that [open] or
    [json.load] raises, or holding the text of a JSON value.  The JSON
    text itself is not modelled: [json.dump] followed by [json.load] is
    taken to give the value back. *)
Inductive file_state :=
| FileAbsent
| FileUnreadable (e : exn)
| FileJson (data : json).

(** [d.get(key)] on the dict that [json.load] builds from an object: the
    last member with that name is the one kept. *)
Fixpoint dict_get (members : list (string * member)) (key : string)
  : option member :=
  match members with
  | [] => None
  | (k, v) :: rest =>
      match dict_get rest key with
      | Some v' => Some v'
      | None => if String.eqb k key then Some v else None
      end
  end.

(** The keys of that dict, each once. *)
Fixpoint dict_keys (members : list (string * member)) : list string :=
  match members with
  | [] => []
  | (k, _) :: rest =>
      k :: filter (fun k' => k' <> k) (dict_keys rest)
  end.

Fixpoint chars (s : string) : list string :=
  match s with
  | EmptyString => []
  | String c r => String c EmptyString :: chars r
  end.

(** [for row in data]: a list yields its items, a dict its keys, a string
    its characters; nothing else can be iterated. *)
Definition iterate (data : json) : outcome (list json) :=
  match data with
  | JArr items => Return items
  | JObj members => Return (JStr <$> dict_keys members)
  | JStr s => Return (JStr <$> chars s)
  | JNull | JBool _ | JNum _ => Raise TypeError
  end.

(** [row.get(key, '')] *)
Definition row_get (members : list (string * member)) (key : string)
  : member :=
  match dict_get members key with
  | Some v => v
  | None => MStr EmptyString
  end.

(** One element of the set comprehension: [row.get] needs a dict, and the
    entry built from the three values is hashed, field by field, when it
    enters the set. *)
Definition entry_of_json (row : json) : outcome WordEntry :=
  match row with
  | JObj members =>
      match row_get members "english", row_get members "chinese",
            row_get members "examples" with
      | MStr e, MStr c, MStr x =>
          Return {| english := e; chinese := c; examples := x |}
      | _, _, _ => Raise TypeError
      end
  | _ => Raise AttributeError
  end.

(** The set comprehension over the rows: the first exception ends it. *)
Fixpoint entries_of_rows (rows : list json) : outcome (gset WordEntry) :=
  match rows with
  | [] => Return ∅
  | row :: rest =>
      match entry_of_json row with
      | Raise e => Raise e
      | Return w =>
          match entries_of_rows rest with
          | Return ws => Return ({[w]} ∪ ws)
          | Raise e => Raise e
          end
      end
  end.

(** The whole [try] body of the load once the file is open. *)
Definition decode (data : json) : outcome (gset WordEntry) :=
  match iterate data with
  | Return rows => entries_of_rows rows
  | Raise e => Raise e
  end.

(** [dataclasses.asdict(word)] *)
Definition asdict (word : WordEntry) : json :=
  JObj [("english", MStr (english word));
        ("chinese", MStr (chinese word));
        ("examples", MStr (examples word))].

(** [[asdict(word) for word in self.wrong_words]] *)
Definition encode (ws : gset WordEntry) : json :=
  JArr (asdict <$> elements ws).

End Store.

(* ===================================================================== *)
(** * engine.py *)
(* ===================================================================== *)

Module Engine.
Import Store.

Inductive message :=
| NoWrongWordsFile                    (* No wrong words file found. ... *)
| LoadedWrongWords (n : nat)          (* Loaded n wrong words from disk. *)
| ErrorLoadingWrongWords (e : exn)    (* Error loading wrong words: e *)
| ErrorSavingWrongWords (e : exn)     (* Error saving wrong words: e *)
| NoWrongWordsToReview                (* No wrong words to review. *)
| StartingReview (n : nat)            (* Starting review mode with n words. *)
| CacheCleared                        (* Wrong words cache cleared. *)
| FromLoader (m : Model.message).

(** What the engine reads and writes outside itself. *)
Record World := mkWorld {
  word_lists : Model.FileSystem;
  wrong_words_file : file_state;      (* WRONG_WORDS_FILE *)
  wrong_words_writable : bool;        (* does open(..., 'w') succeed *)
  stdout : list message;
  random : Random.RandomState;
}.

(** The attributes of a [GameEngine] object. *)
Record GameEngine := mkEngine {
  loader : Model.DataLoader;
  all_words : list WordEntry;
  current_deck : list WordEntry;
  current_index : Z;
  question_mode : string;
  show_first_letter : bool;
  retry_on_wrong : bool;
  wrong_words : gset WordEntry;
}.

Record State := mkState { self : GameEngine; world : World }.

(** ** Attribute assignment *)

Definition with_all_words (v : list WordEntry) (e : GameEngine) :=
  mkEngine (loader e) v (current_deck e) (current_index e)
           (question_mode e) (show_first_letter e) (retry_on_wrong e)
           (wrong_words e).
Definition with_current_deck (v : list WordEntry) (e : GameEngine) :=
  mkEngine (loader e) (all_words e) v (current_index e)
           (question_mode e) (show_first_letter e) (retry_on_wrong e)
           (wrong_words e).
Definition with_current_index (v : Z) (e : GameEngine) :=
  mkEngine (loader e) (all_words e) (current_deck e) v
           (question_mode e) (show_first_letter e) (retry_on_wrong e)
           (wrong_words e).
Definition with_question_mode (v : string) (e : GameEngine) :=
  mkEngine (loader e) (all_words e) (current_deck e) (current_index e)
           v (show_first_letter e) (retry_on_wrong e) (wrong_words e).
Definition with_show_first_letter (v : bool) (e : GameEngine) :=
  mkEngine (loader e) (all_words e) (current_deck e) (current_index e)
           (question_mode e) v (retry_on_wrong e) (wrong_words e).
Definition with_retry_on_wrong (v : bool) (e : GameEngine) :=
  mkEngine (loader e) (all_words e) (current_deck e) (current_index e)
           (question_mode e) (show_first_letter e) v (wrong_words e).
Definition with_wrong_words (v : gset WordEntry) (e : GameEngine) :=
  mkEngine (loader e) (all_words e) (current_deck e) (current_index e)
           (question_mode e) (show_first_letter e) (retry_on_wrong e) v.

Definition with_file (v : file_state) (w : World) :=
  mkWorld (word_lists w) v (wrong_words_writable w) (stdout w) (random w).
Definition with_stdout (v : list message) (w : World) :=
  mkWorld (word_lists w) (wrong_words_file w) (wrong_words_writable w) v
          (random w).
Definition with_random (v : Random.RandomState) (w : World) :=
  mkWorld (word_lists w) (wrong_words_file w) (wrong_words_writable w)
          (stdout w) v.

(** ** Methods run in a state-and-exception monad *)

Definition M (A : Type) : Type := State -> outcome A * State.

Definition ret {A} (a : A) : M A := fun s => (Return a, s).
Definition bind {A B} (m : M A) (k : A -> M B) : M B :=
  fun s =>
    match m s with
    | (Return a, s') => k a s'
    | (Raise e, s') => (Raise e, s')
    end.
Definition lift {A} (o : outcome A) : M A := fun s => (o, s).
Definition get {A} (f : GameEngine -> A) : M A :=
  fun s => (Return (f (self s)), s).
Definition assign (f : GameEngine -> GameEngine) : M unit :=
  fun s => (Return tt, mkState (f (self s)) (world s)).
Definition ask {A} (f : World -> A) : M A :=
  fun s => (Return (f (world s)), s).
Definition effect (f : World -> World) : M unit :=
  fun s => (Return tt, mkState (self s) (f (world s))).
Definition print (m : message) : M unit :=
  effect (fun w => with_stdout (stdout w ++ [m]) w).

Notation "x <- m ;; k" := (bind m (fun x => k))
  (at level 100, m at next level, right associativity).
Notation "m ;; k" := (bind m (fun _ => k))
  (at level 100, right associativity).

Definition len {A} (l : list A) : Z := Z.of_nat (length l).

(** [random.shuffle(self.current_deck)] *)
Definition shuffle_current_deck : M unit :=
  deck <- get current_deck ;;
  g <- ask random ;;
  let '(deck', g') := Random.shuffle deck g in
  assign (with_current_deck deck') ;;
  effect (with_random g').

(** [self.loader.load_word_list(book, units)] *)
Definition call_load_word_list (book : string) (units : list string)
  : M (list WordEntry) :=
  l <- get loader ;;
  fs <- ask word_lists ;;
  let '(entries, out) := Model.load_word_list l fs book units in
  effect (fun w => with_stdout (stdout w ++ (FromLoader <$> out)) w) ;;
  ret entries.

(** [_load_wrong_words_from_disk] *)
Definition _load_wrong_words_from_disk : M unit :=
  f <- ask wrong_words_file ;;
  match f with
  | FileAbsent => print NoWrongWordsFile
  | FileUnreadable e => print (ErrorLoadingWrongWords e)
  | FileJson data =>
      match decode data with
      | Return ws =>
          assign (with_wrong_words ws) ;;
          print (LoadedWrongWords (size ws))
      | Raise e => print (ErrorLoadingWrongWords e)
      end
  end.

(** [_save_wrong_words_to_disk] *)
Definition _save_wrong_words_to_disk : M unit :=
  writable <- ask wrong_words_writable ;;
  if writable : bool then
    ws <- get wrong_words ;;
    effect (with_file (FileJson (encode ws)))
  else print (ErrorSavingWrongWords OSError).

Arguments _save_wrong_words_to_disk : simpl never.
Arguments shuffle_current_deck : simpl never.
Arguments call_load_word_list : simpl never.

(** [GameEngine(loader)], run in a given world: the attributes are set
    and the wrong words loaded; the load catches what it raises. *)
Definition init (l : Model.DataLoader) (w : World) : State :=
  (_load_wrong_words_from_disk
     (mkState (mkEngine l [] [] 0 "word" false false ∅) w)).2.

Definition no_space (w : WordEntry) : Prop :=
  PyStr.contains " " (english w) = false.
Definition has_space (w : WordEntry) : Prop :=
  PyStr.contains " " (english w) = true.

Global Instance no_space_dec w : Decision (no_space w).
Proof. unfold no_space. apply _. Defined.
Global Instance has_space_dec w : Decision (has_space w).
Proof. unfold has_space. apply _. Defined.

(** The content filter of [start_game]. *)
Definition apply_filter (filter_mode : string) (all : list WordEntry)
  : list WordEntry :=
  if String.eqb filter_mode "words_only" then filter no_space all
  else if String.eqb filter_mode "phrases_only" then filter has_space all
  else all.

Definition start_game (book : string) (units : list string)
    (filter_mode order_mode question_mode' : string)
    (show_first_letter' retry_on_wrong' : bool) : M unit :=
  entries <- call_load_word_list book units ;;
  assign (with_all_words entries) ;;
  all <- get all_words ;;
  let temp_deck := apply_filter filter_mode all in  (* always a new list *)
  assign (with_current_deck temp_deck) ;;
  (if String.eqb order_mode "random" then shuffle_current_deck
   else ret tt) ;;
  assign (with_question_mode question_mode') ;;
  assign (with_show_first_letter show_first_letter') ;;
  assign (with_retry_on_wrong retry_on_wrong') ;;
  assign (with_current_index 0).

Definition start_review_mode : M bool :=
  ws <- get wrong_words ;;
  if decide (ws = ∅) then
    print NoWrongWordsToReview ;;
    ret false
  else
    print (StartingReview (size ws)) ;;
    assign (with_current_deck (elements ws)) ;;
    assign (with_wrong_words ∅) ;;
    _save_wrong_words_to_disk ;;
    shuffle_current_deck ;;
    assign (with_current_index 0) ;;
    ret true.

(** [self.current_index >= len(self.current_deck)] *)
Definition deck_finished : M bool :=
  i <- get current_index ;;
  deck <- get current_deck ;;
  ret (len deck <=? i).

(** [self.current_deck[self.current_index]] *)
Definition current_entry : M WordEntry :=
  i <- get current_index ;;
  deck <- get current_deck ;;
  lift (py_index deck i).

(** [self.current_index += 1] *)
Definition advance : M unit :=
  i <- get current_index ;;
  assign (with_current_index (i + 1)).

Definition get_next_question : M (option WordEntry) :=
  finished <- deck_finished ;;
  if finished : bool then ret None
  else
    w <- current_entry ;;
    ret (Some w).

(** [current_word.english.split(',')[0].strip()] *)
Definition correct_answer_of (current_word : WordEntry) : outcome string :=
  match py_index (PyStr.split "," (english current_word)) 0 with
  | Return first => Return (PyStr.strip first)
  | Raise e => Raise e
  end.

Definition check_answer (user_input : string) : M bool :=
  finished <- deck_finished ;;
  if finished : bool then ret false
  else
    current_word <- current_entry ;;
    correct_answer <- lift (correct_answer_of current_word) ;;
    let is_correct :=
      String.eqb (PyStr.lower (PyStr.strip user_input))
                 (PyStr.lower correct_answer) in
    (if negb is_correct then
       ws <- get wrong_words ;;
       assign (with_wrong_words ({[current_word]} ∪ ws)) ;;
       _save_wrong_words_to_disk
     else ret tt) ;;
    advance ;;
    ret is_correct.

Definition skip_current_word : M (option WordEntry) :=
  finished <- deck_finished ;;
  if finished : bool then ret None
  else
    current_word <- current_entry ;;
    ws <- get wrong_words ;;
    assign (with_wrong_words ({[current_word]} ∪ ws)) ;;
    _save_wrong_words_to_disk ;;
    advance ;;
    ret (Some current_word).

Definition skip_without_penalty : M (option WordEntry) :=
  finished <- deck_finished ;;
  if finished : bool then ret None
  else
    current_word <- current_entry ;;
    ws <- get wrong_words ;;
    (if decide (current_word ∈ ws) then
       assign (with_wrong_words (ws ∖ {[current_word]})) ;;
       _save_wrong_words_to_disk
     else ret tt) ;;
    advance ;;
    ret (Some current_word).

Definition clear_wrong_words_cache : M unit :=
  assign (with_wrong_words ∅) ;;
  _save_wrong_words_to_disk ;;
  print CacheCleared.

Definition get_progress : M (Z * Z) :=
  i <- get current_index ;;
  deck <- get current_deck ;;
  ret (i, len deck).

Definition get_wrong_word_count : M Z :=
  ws <- get wrong_words ;;
  ret (Z.of_nat (size ws)).

(** ** Sequences of calls *)

(** A call of a public method, with its arguments. *)
Inductive call :=
| StartGame (book : string) (units : list string)
            (filter_mode order_mode question_mode : string)
            (show_first_letter retry_on_wrong : bool)
| StartReviewMode
| GetNextQuestion
| CheckAnswer (user_input : string)
| SkipCurrentWord
| SkipWithoutPenalty
| ClearWrongWordsCache
| GetProgress
| GetWrongWordCount.

(** Does the call end with an exception? *)
Definition raises {A} (r : outcome A * State) : bool :=
  match r.1 with Raise _ => true | Return _ => false end.

(** The state a call leaves, and whether it raised. *)
Definition run_call (c : call) (s : State) : bool * State :=
  match c with
  | StartGame b u f o q sfl row =>
      let r := start_game b u f o q sfl row s in (raises r, r.2)
  | StartReviewMode => let r := start_review_mode s in (raises r, r.2)
  | GetNextQuestion => let r := get_next_question s in (raises r, r.2)
  | CheckAnswer i => let r := check_answer i s in (raises r, r.2)
  | SkipCurrentWord => let r := skip_current_word s in (raises r, r.2)
  | SkipWithoutPenalty => let r := skip_without_penalty s in (raises r, r.2)
  | ClearWrongWordsCache =>
      let r := clear_wrong_words_cache s in (raises r, r.2)
  | GetProgress => let r := get_progress s in (raises r, r.2)
  | GetWrongWordCount => let r := get_wrong_word_count s in (raises r, r.2)
  end.

(** The calls one after the other; the caller stops at an exception. *)
Fixpoint run_calls (cs : list call) (s : State) : bool * State :=
  match cs with
  | [] => (false, s)
  | c :: rest =>
      match run_call c s with
      | (true, s') => (true, s')
      | (false, s') => run_calls rest s'
      end
  end.

(** The calls that play the current deck without replacing it. *)
Definition plays (c : call) : bool :=
  match c with
  | GetNextQuestion | CheckAnswer _ | SkipCurrentWord | SkipWithoutPenalty
  | GetProgress | GetWrongWordCount => true
  | _ => false
  end.

(** ** Properties of states used in the specification *)

(** The deck invariant: [0 <= current_index <= len(current_deck)]. *)
Definition cursor_ok (s : State) : Prop :=
  0 <= current_index (self s) <= len (current_deck (self s)).

(** The deck is exhausted. *)
Definition exhausted (s : State) : Prop :=
  current_index (self s) = len (current_deck (self s)).

(** The set a reader of the file obtains, that is the set
    [_load_wrong_words_from_disk] leaves in a new engine. *)
Definition stored_set (f : file_state) : gset WordEntry :=
  match f with
  | FileAbsent | FileUnreadable _ => ∅
  | FileJson data =>
      match decode data with
      | Return ws => ws
      | Raise _ => ∅
      end
  end.

(** The file and the set in memory agree. *)
Definition in_sync (s : State) : Prop :=
  stored_set (wrong_words_file (world s)) = wrong_words (self s).

(** The specification's wording of the answer test: the text before the
    first comma ... *)
Fixpoint before_first (sep : ascii) (s : string) : string :=
  match s with
  | EmptyString => EmptyString
  | String c r =>
      if Ascii.eqb c sep then EmptyString
      else String c (before_first sep r)
  end.

(** ... trimmed and lower-cased, on both sides. *)
Definition normalized (s : string) : string := PyStr.lower (PyStr.strip s).

Definition answer_matches (user_input : string) (w : WordEntry) : Prop :=
  normalized user_input = normalized (before_first "," (english w)).

Global Instance answer_matches_dec u w : Decision (answer_matches u w).
Proof. unfold answer_matches. apply _. Defined.

(** The world after [_save_wrong_words_to_disk] has run with the set
    [ws] in memory. *)
Definition after_save (ws : gset WordEntry) (w : World) : World :=
  if wrong_words_writable w then with_file (FileJson (encode ws)) w
  else with_stdout (stdout w ++ [ErrorSavingWrongWords OSError]) w.

(** A call that deals a new deck: [start_game], or [start_review_mode]
    with something to review. *)
Definition deals (c : call) (s : State) : Prop :=
  match c with
  | StartGame _ _ _ _ _ _ _ => True
  | StartReviewMode => wrong_words (self s) ≠ ∅
  | _ => False
  end.

(** What the loader returns to a [start_game] call made in state [s]. *)
Definition loaded_words (s : State) (book : string) (units : list string)
  : list WordEntry :=
  (Model.load_word_list (loader (self s)) (word_lists (world s))
     book units).1.

(** The deck that call leaves. *)
Definition dealt_deck (s : State) (book : string) (units : list string)
    (filter_mode order_mode question_mode' : string)
    (show_first_letter' retry_on_wrong' : bool) : list WordEntry :=
  current_deck
    (self (start_game book units filter_mode order_mode question_mode'
             show_first_letter' retry_on_wrong' s).2).







End Engine.

(* ===================================================================== *)
(** * A small world to run the engine in *)
(* ===================================================================== *)

Module Demo.
Import Store Engine.

Definition run_runs : WordEntry :=
  {| english := "run, runs"; chinese := "pao"; examples := EmptyString |}.
Definition let_go : WordEntry :=
  {| english := "let go"; chinese := "fangshou"; examples := EmptyString |}.
Definition cat : WordEntry :=
  {| english := "Cat"; chinese := "mao"; examples := "The [[cat]] sat." |}.

Definition unit1_path : Model.path := ["./data"; "book1"; "unit1.csv"].

(** One unit file: three usable rows, one of them with a zero-width
    space in its english cell, and two whose english cell holds white
    space and zero-width spaces only. *)
Definition unit1 : Model.csv_file :=
  {| Model.csv_rows :=
       [Model.mkRow (Some (Model.plain " run, runs "))
                    (Some (Model.plain "pao")) None;
        Model.mkRow (Some (Model.plain "let"
                           ++ [Model.ZeroWidthSpace] ++ Model.plain " go"))
                    (Some (Model.plain "fangshou")) (Some []);
        Model.mkRow (Some (Model.plain "  ")) (Some (Model.plain "kong"))
                    None;
        Model.mkRow (Some [Model.ZeroWidthSpace; Model.Latin " "])
                    (Some (Model.plain "ling")) None;
        Model.mkRow (Some (Model.plain "Cat")) (Some (Model.plain "mao"))
                    (Some (Model.plain "The [[cat]] sat."))];
     Model.csv_raises := false |}.

Definition files : Model.FileSystem :=
  {| Model.fs_exists p :=
       bool_decide (p ∈ [["./data"]; ["./data"; "book1"]; unit1_path]);
     Model.fs_isdir p :=
       bool_decide (p ∈ [["./data"]; ["./data"; "book1"]]);
     Model.fs_isfile p := bool_decide (p = unit1_path);
     Model.fs_listdir p :=
       if bool_decide (p = ["./data"]) then Some ["book1"; "notes.txt"]
       else if bool_decide (p = ["./data"; "book1"]) then Some ["unit1.csv"]
       else None;
     Model.fs_csv p :=
       if bool_decide (p = unit1_path) then unit1 else Model.mkCsv [] true |}.

Definition generator : Random.RandomState :=
  {| Random.draws n := (7 * n + 3)%nat; Random.consumed := 0 |}.

Definition the_loader : Model.DataLoader := Model.mkLoader "./data".

(** No wrong-word file yet, and the directory can be written. *)
Definition world0 : World :=
  {| word_lists := files; wrong_words_file := FileAbsent;
     wrong_words_writable := true; stdout := []; random := generator |}.

(** An engine in the middle of nothing: no deck, nothing to review. *)
Definition idle : State :=
  mkState (mkEngine the_loader [] [] 0 "word" false false ∅) world0.

(** An engine at the start of the three-entry deck. *)
Definition playing : State :=
  mkState (mkEngine the_loader [run_runs; let_go; cat]
             [run_runs; let_go; cat] 0 "word" false false ∅) world0.

(** The same with one earlier miss recorded and stored. *)
Definition with_miss : State :=
  mkState (mkEngine the_loader [run_runs; let_go; cat]
             [run_runs; let_go; cat] 0 "word" false false {[run_runs]})
          (with_file (FileJson (encode {[run_runs]})) world0).

(** A round of play, and the call that deals its deck. *)
Definition calls : list call :=
  [GetNextQuestion; CheckAnswer "Run"; SkipCurrentWord; GetProgress;
   SkipWithoutPenalty; CheckAnswer "dog"; GetWrongWordCount].

Definition deal : call :=
  StartGame "book1" ["unit1.csv"] "all" "random" "word" false false.

End Demo.

(* ===================================================================== *)
(** * Words for the statements about the loader and about play *)
(* ===================================================================== *)

Module LoaderWords.
Import PyStr.
(** No white space at either end and no no-break space anywhere. *)
Definition tidy (s : string) : Prop :=
  ¬ starts_blank s ∧ ¬ ends_blank s ∧ "160"%char ∉ chars_of s.

(** A row whose english cell holds something other than white space and
    zero-width spaces. *)
Definition usable_row (row : Model.csv_row) : Prop :=
  match Model.cell_english row with
  | Some t => ¬ blank (Model.remove_zero_width t)
  | None => False
  end.

Global Instance cell_char_eq_dec : EqDecision Model.cell_char.
Proof. solve_decision. Defined.

Global Instance blank_dec s : Decision (blank s).
Proof. unfold blank. apply _. Defined.
Global Instance usable_row_dec row : Decision (usable_row row).
Proof. unfold usable_row. destruct (Model.cell_english row); apply _. Defined.
End LoaderWords.

Module PlayWords.
Import Store Engine.
(** The calls that move the cursor on. *)
Definition advances (c : call) : bool :=
  match c with
  | CheckAnswer _ | SkipCurrentWord | SkipWithoutPenalty => true
  | _ => false
  end.

(** The entries the cursor has passed. *)
Definition served (s : State) : gset WordEntry :=
  list_to_set (take (Z.to_nat (current_index (self s)))
                    (current_deck (self s))).
End PlayWords.

(* ===================================================================== *)
(** * main.py: what the window does to the engine *)
(* ===================================================================== *)

(** The window is modelled as far as it drives the engine: the engine
    object it owns, the key bindings, [current_word], and whether the
    input line is enabled (which [handle_action] reads back).  The log
    area, the message boxes, the button captions and the settings dock are
    only ever written to and are left out, and with them the text of the
    prompts; what is kept of the prompt is where building it can raise
    and where it draws from the random generator.  The key bindings are a
    dict from strings to strings, as the default ones are. *)
Module Window.
Import Store Engine.

Record MainWindow := mkWindow {
  engine : State;                       (* self.engine, and its world *)
  keybindings : gmap string string;     (* self.keybindings *)
  current_word : option WordEntry;      (* self.current_word *)
  input_enabled : bool;                 (* self.input_line.isEnabled() *)
}.

Definition with_engine (v : State) (w : MainWindow) :=
  mkWindow v (keybindings w) (current_word w) (input_enabled w).
Definition with_current_word (v : option WordEntry) (w : MainWindow) :=
  mkWindow (engine w) (keybindings w) v (input_enabled w).
Definition with_input_enabled (v : bool) (w : MainWindow) :=
  mkWindow (engine w) (keybindings w) (current_word w) v.

(** ** Slots run in a state-and-exception monad over the window *)

Definition W (A : Type) : Type := MainWindow -> outcome A * MainWindow.

Definition wret {A} (a : A) : W A := fun w => (Return a, w).
Definition wbind {A B} (m : W A) (k : A -> W B) : W B :=
  fun w =>
    match m w with
    | (Return a, w') => k a w'
    | (Raise e, w') => (Raise e, w')
    end.
Definition wlift {A} (o : outcome A) : W A := fun w => (o, w).
Definition read {A} (f : MainWindow -> A) : W A := fun w => (Return (f w), w).
Definition write (f : MainWindow -> MainWindow) : W unit :=
  fun w => (Return tt, f w).
(** A method call on [self.engine], or a statement on its attributes. *)
Definition on_engine {A} (m : M A) : W A :=
  fun w => let '(o, s) := m (engine w) in (o, with_engine s w).

Notation "x <~ m ;; k" := (wbind m (fun x => k))
  (at level 100, m at next level, right associativity).
Notation "m ;;; k" := (wbind m (fun _ => k))
  (at level 100, right associativity).

(** [s.startswith(p)] and [p in s] for a string [p]. *)
Fixpoint startswith (p s : string) : bool :=
  match p, s with
  | EmptyString, _ => true
  | String a p', String b s' => Ascii.eqb a b && startswith p' s'
  | String _ _, EmptyString => false
  end.

Fixpoint contains_str (p s : string) : bool :=
  startswith p s
  || match s with
     | EmptyString => false
     | String _ s' => contains_str p s'
     end.

(** [_get_clean_english] *)
Definition _get_clean_english (word : WordEntry) : outcome string :=
  match py_index (PyStr.split "," (english word)) 0 with
  | Return first => Return (PyStr.strip first)
  | Raise e => Raise e
  end.

(** [self._get_clean_english(word).split(' ')[0][0].lower()], the first
    letter shown as a hint. *)
Definition first_letter (word : WordEntry) : outcome string :=
  match _get_clean_english word with
  | Raise e => Raise e
  | Return english_word =>
      match py_index (PyStr.split " " english_word) 0 with
      | Raise e => Raise e
      | Return piece =>
          match piece with
          | EmptyString => Raise IndexError
          | String c _ => Return (PyStr.lower (String c EmptyString))
          end
      end
  end.

(** The validity test of [ask_next_question]: in example mode an entry
    needs an example sentence with a [[[] marker. *)
Definition is_valid_question (question_mode : string) (word : WordEntry)
  : bool :=
  if String.eqb question_mode "example" then
    let sentence := examples word in
    if PyStr.is_empty sentence || negb (contains_str "[[" sentence)
    then false else true
  else true.

(** The [while True] loop of [ask_next_question].  [budget] is
    [total_words - invalid_count]; the result tells whether the loop was
    left by [break]. *)
Fixpoint ask_loop (budget : nat) : W bool :=
  q <~ on_engine get_next_question ;;
  write (with_current_word q) ;;;
  match q with
  | None => write (with_input_enabled false) ;;; wret false
  | Some word =>
      mode <~ read (fun w => question_mode (self (engine w))) ;;
      if is_valid_question mode word then wret true
      else
        (* self.engine.current_index += 1 *)
        on_engine (i <- get current_index ;;
                   assign (with_current_index (i + 1))) ;;;
        match budget with
        | S (S _ as rest) => ask_loop rest
        | _ => write (with_input_enabled false) ;;; wret false
        end
  end.

(** [random.choice(seq)] for a [seq] of [n] items: one draw below [n],
    from the generator that [random.shuffle] uses.  The item drawn goes
    into the prompt only. *)
Definition random_choice (n : nat) : M unit :=
  g <- ask random ;;
  effect (with_random (Random.randbelow n g).2).

Section Sentences.

(** [sentence.split('；')], the sentences of an example.  The full-width
    semicolon U+FF1B is no character of a [string], so the split is left
    open: the slots are defined, and their properties proved, for every
    way of splitting. *)
Variable sentences_of : string -> list string.

(** The prompt built after the loop, as far as it acts on the engine or
    can raise: in example mode the first letter is worked out and one of
    the sentences drawn when there are several; the first letter is
    worked out again for the hint. *)
Definition show_question (word : WordEntry) : W unit :=
  mode <~ read (fun w => question_mode (self (engine w))) ;;
  hint <~ read (fun w => show_first_letter (self (engine w))) ;;
  (if String.eqb mode "example" then
     _ <~ wlift (first_letter word) ;;
     let sentences := sentences_of (examples word) in
     if (1 <? length sentences)%nat
     then on_engine (random_choice (length sentences))
     else wret tt
   else wret tt) ;;;
  (if hint : bool
   then (_ <~ wlift (first_letter word) ;; wret tt) else wret tt).

Definition ask_next_question : W unit :=
  total_words <~ read (fun w => length (current_deck (self (engine w)))) ;;
  found <~ ask_loop total_words ;;
  if found : bool then
    q <~ read current_word ;;
    match q with
    | Some word => show_question word
    | None => wret tt
    end
  else wret tt.

(** [_reprint_current_question] *)
Definition _reprint_current_question : W unit :=
  q <~ read current_word ;;
  match q with
  | None => wret tt
  | Some word =>
      hint <~ read (fun w => show_first_letter (self (engine w))) ;;
      if hint : bool
      then (_ <~ wlift (first_letter word) ;; wret tt) else wret tt
  end.

(** The slot [start_game], with what it reads from the widgets as
    arguments. *)
Definition start_game (book : string) (selected_units : list string)
    (content_id order_id q_id : Z) (show_first_letter retry_on_wrong : bool)
  : W unit :=
  let filter_mode :=
    if content_id =? 1 then "words_only"
    else if content_id =? 2 then "phrases_only" else "all" in
  let order_mode := if order_id =? 1 then "random" else "sequential" in
  let question_mode := if q_id =? 1 then "example" else "word" in
  match selected_units with
  | [] => wret tt
  | _ =>
      on_engine (Engine.start_game book selected_units filter_mode order_mode
                   question_mode show_first_letter retry_on_wrong) ;;;
      write (with_input_enabled true) ;;;
      ask_next_question
  end.

(** The slot [start_review] *)
Definition start_review : W unit :=
  success <~ on_engine start_review_mode ;;
  if negb success then wret tt
  else
    on_engine (assign (with_question_mode "word")) ;;;
    on_engine (assign (with_show_first_letter true)) ;;;
    write (with_input_enabled true) ;;;
    ask_next_question.

(** [handle_action] *)
Definition handle_action (action_name : string) : W unit :=
  enabled <~ read input_enabled ;;
  if negb enabled
     && negb (bool_decide (action_name ∈ ["action_start_review";
                                          "action_clear_cache";
                                          "action_clear_screen"]))
  then wret tt
  else if String.eqb action_name "action_skip_no_penalty" then
    _ <~ on_engine skip_without_penalty ;;
    ask_next_question
  else if String.eqb action_name "action_clear_cache" then
    on_engine clear_wrong_words_cache
  else if String.eqb action_name "action_clear_screen" then
    q <~ read current_word ;;
    match q with
    | Some _ => _reprint_current_question
    | None => wret tt
    end
  else if String.eqb action_name "action_start_review" then start_review
  else wret tt.

(** [submit_answer], with the text of the input line as argument. *)
Definition submit_answer (text : string) : W unit :=
  let user_input := PyStr.strip text in
  bindings <~ read keybindings ;;
  match bindings !! user_input with
  | Some action_name => handle_action action_name
  | None =>
      q <~ read current_word ;;
      match q with
      | None => wret tt
      | Some _ =>
          is_correct <~ on_engine (check_answer user_input) ;;
          if is_correct : bool then ask_next_question
          else
            retry <~ read (fun w => retry_on_wrong (self (engine w))) ;;
            if retry : bool then
              (* self.engine.current_index -= 1 *)
              on_engine (i <- get current_index ;;
                         assign (with_current_index (i - 1)))
            else ask_next_question
      end
  end.

(** The slot [clear_wrong_words]:
    [self.engine.wrong_words.clear(); self.engine._save_wrong_words_to_disk()] *)
Definition clear_wrong_words : W unit :=
  on_engine (assign (with_wrong_words ∅)) ;;;
  on_engine _save_wrong_words_to_disk.

(** ** What the user can do *)

(** The events that reach the engine, with what the slot reads from the
    widgets. *)
Inductive event :=
| ClickStartGame (book : string) (selected_units : list string)
                 (content_id order_id q_id : Z)
                 (show_first_letter retry_on_wrong : bool)
| ClickReview
| ClickClearWrongWords
| ReturnPressed (text : string).

(** The slot an event runs.  A disabled input line takes no key strokes,
    so that [returnPressed] is only emitted while it is enabled. *)
Definition dispatch (e : event) : W unit :=
  match e with
  | ClickStartGame b u c o q sfl row => start_game b u c o q sfl row
  | ClickReview => start_review
  | ClickClearWrongWords => clear_wrong_words
  | ReturnPressed text =>
      enabled <~ read input_enabled ;;
      if enabled : bool then submit_answer text else wret tt
  end.

(** The events one after the other; an exception that leaves a slot ends
    the run. *)
Fixpoint run_events (es : list event) (w : MainWindow) : bool * MainWindow :=
  match es with
  | [] => (false, w)
  | e :: rest =>
      match dispatch e w with
      | (Raise _, w') => (true, w')
      | (Return _, w') => run_events rest w'
      end
  end.

End Sentences.

(** ** Words for the statements *)

(** The engine with its cursor moved to [i]. *)
Definition moved (i : Z) (s : State) : State :=
  mkState (with_current_index i (self s)) (world s).

(** What the loop leaves: the engine as it was but for the cursor, which
    has passed entries that are no question in the current mode; and
    either a valid entry on display, or the input line disabled. *)
Definition asked (w w' : MainWindow) (found : bool) : Prop :=
  let i := current_index (self (engine w)) in
  let i' := current_index (self (engine w')) in
  let deck := current_deck (self (engine w)) in
  let mode := question_mode (self (engine w)) in
  engine w' = moved i' (engine w)
  ∧ keybindings w' = keybindings w
  ∧ i <= i' <= len deck
  ∧ (forall j, i <= j < i' ->
       exists word, deck !! Z.to_nat j = Some word
                    ∧ is_valid_question mode word = false)
  ∧ if found
    then input_enabled w' = input_enabled w
         ∧ exists word, current_word w' = Some word
                        ∧ deck !! Z.to_nat i' = Some word
                        ∧ is_valid_question mode word = true
    else input_enabled w' = false.

(** The outcome of building the prompt for [word]: the first letter is
    worked out in example mode and when the hint is on. *)
Definition prompt_outcome (mode : string) (hint : bool) (word : WordEntry)
  : outcome unit :=
  if String.eqb mode "example" || hint then
    match first_letter word with
    | Return _ => Return tt
    | Raise e => Raise e
    end
  else Return tt.

(** The engine after [random.choice] among [n] items. *)
Definition drawn (n : nat) (s : State) : State :=
  mkState (self s)
    (with_random (Random.randbelow n (random (world s))).2 (world s)).

(** The engine after the prompt for [word] has been built: in example
    mode, unless the first letter raised, one of the [sentences] has been
    drawn if there are several. *)
Definition prompted (sentences : list string) (word : WordEntry) (s : State)
  : State :=
  if String.eqb (question_mode (self s)) "example" then
    match first_letter word with
    | Return _ =>
        if (1 <? length sentences)%nat then drawn (length sentences) s
        else s
    | Raise _ => s
    end
  else s.

(** The file can be written and agrees with the set. *)
Definition synced (s : State) : Prop :=
  wrong_words_writable (world s) = true ∧ in_sync s.

(** The entry on display is the one under the cursor. *)
Definition shows_current (w : MainWindow) : Prop :=
  cursor_ok (engine w)
  ∧ (input_enabled w = true ->
     exists word,
       current_word w = Some word
       ∧ current_deck (self (engine w))
           !! Z.to_nat (current_index (self (engine w))) = Some word).

(** What every slot keeps: the display in step with the cursor, and the
    file in step with the set. *)
Definition keeps (w w' : MainWindow) : Prop :=
  shows_current w' ∧ (synced (engine w) -> synced (engine w')).

End Window.

(** A window for the examples: the default key bindings of
    [load_keybindings], and the first entry of the demo deck on display. *)
Module WindowDemo.
Import Store Engine Window.

Definition default_bindings : gmap string string :=
  list_to_map [("a", "action_skip_no_penalty");
               ("/skip", "action_skip_no_penalty");
               ("/clc", "action_clear_cache");
               ("/clear", "action_clear_screen");
               ("/review", "action_start_review")].

Definition asking : MainWindow :=
  mkWindow Demo.playing default_bindings (Some Demo.run_runs) true.

(** The same with [retry_on_wrong] ticked. *)
Definition retrying : MainWindow :=
  mkWindow (mkState (with_retry_on_wrong true (self Demo.playing))
              (world Demo.playing))
    default_bindings (Some Demo.run_runs) true.

(** A window in example mode on an entry with two example sentences,
    and a split for it, at the semicolon of the modelled range. *)
Definition two_sentences : WordEntry :=
  {| english := "cat"; chinese := "mao";
     examples := "The [[cat]] sat.;A [[cat]] ran." |}.

Definition by_example : MainWindow :=
  mkWindow (mkState (mkEngine Demo.the_loader [two_sentences]
                       [two_sentences] 0 "example" false false ∅)
              Demo.world0)
    default_bindings None true.

Definition at_semicolons : string -> list string := PyStr.split ";".

Definition session : list event :=
  [ReturnPressed "Run"; ReturnPressed "dog"; ReturnPressed "/skip";
   ClickReview; ReturnPressed " let go"; ClickClearWrongWords;
   ClickStartGame "book1" ["unit1.csv"] 1 1 1 true true].

End WindowDemo.

(* ===================================================================== *)
(** * Facts about the library models *)
(* ===================================================================== *)

Module RandomFacts.
Import Random.

Section Swap.
Context {A : Type}.
Implicit Types x : list A.

Lemma transpose_involutive i j k : transpose i j (transpose i j k) = k.
Proof. unfold transpose; repeat case_decide; congruence. Qed.

Lemma swap_length x i j : length (swap x i j) = length x.
Proof.
  unfold swap. destruct (x !! j), (x !! i); trivial.
  by rewrite !length_insert.
Qed.

Lemma swap_lookup x i j k :
  (i < length x)%nat -> (j < length x)%nat ->
  swap x i j !! k = x !! transpose i j k.
Proof.
  intros Hi Hj. unfold swap, transpose.
  destruct (lookup_lt_is_Some_2 x i Hi) as [xi Exi].
  destruct (lookup_lt_is_Some_2 x j Hj) as [xj Exj].
  rewrite Exi, Exj.
  destruct (decide (k = j)) as [->|Hkj].
  - rewrite list_lookup_insert_eq by (rewrite length_insert; lia).
    case_decide; congruence.
  - rewrite list_lookup_insert_ne by congruence.
    destruct (decide (k = i)) as [->|Hki].
    + by rewrite list_lookup_insert_eq.
    + by rewrite list_lookup_insert_ne.
Qed.

(** One exchange rearranges the list. *)
Lemma swap_perm x i j : swap x i j ≡ₚ x.
Proof.
  destruct (decide (i < length x)%nat) as [Hi|Hi];
    [destruct (decide (j < length x)%nat) as [Hj|Hj]|].
  - apply Permutation_inj. split; [apply swap_length|].
    exists (transpose i j). split.
    + intros a b E. rewrite <- (transpose_involutive i j a), E.
      apply transpose_involutive.
    + intros k. by apply swap_lookup.
  - unfold swap. rewrite (lookup_ge_None_2 x j) by lia. done.
  - unfold swap. rewrite (lookup_ge_None_2 x i) by lia.
    by destruct (x !! j).
Qed.

Lemma shuffle_from_perm i x g : (shuffle_from i x g).1 ≡ₚ x.
Proof.
  revert x g. induction i as [|i IH]; intros x g; [done|].
  cbn [shuffle_from]. destruct (randbelow (S (S i)) g) as [j g'].
  rewrite IH. apply swap_perm.
Qed.

(** Whatever the generator draws, [shuffle] rearranges the list. *)
Lemma shuffle_perm x g : (shuffle x g).1 ≡ₚ x.
Proof. apply shuffle_from_perm. Qed.

Lemma shuffle_length x g : length (shuffle x g).1 = length x.
Proof. by rewrite shuffle_perm. Qed.
End Swap.
End RandomFacts.

Module PyStrFacts.
Import PyStr Engine.

Lemma chars_of_app s t : chars_of (s +:+ t) = chars_of s ++ chars_of t.
Proof.
  unfold chars_of. induction s as [|c s IH]; [done|].
  change (String c s +:+ t) with (String c (s +:+ t)). cbn. by rewrite IH.
Qed.

Lemma chars_of_inj s t : chars_of s = chars_of t -> s = t.
Proof.
  unfold chars_of. intros H.
  rewrite <- (String.string_of_list_ascii_of_string s),
          <- (String.string_of_list_ascii_of_string t). by rewrite H.
Qed.

Lemma chars_of_rev_app s t :
  chars_of (String.rev_app s t) = reverse (chars_of s) ++ chars_of t.
Proof.
  unfold chars_of.
  revert t. induction s as [|c s IH]; intros t; [done|].
  cbn [String.rev_app String.list_ascii_of_string].
  rewrite IH, reverse_cons, <- app_assoc. done.
Qed.

Lemma chars_of_rev s : chars_of (String.rev s) = reverse (chars_of s).
Proof.
  unfold String.rev. rewrite chars_of_rev_app. cbn. by rewrite app_nil_r.
Qed.

Lemma rev_involutive s : String.rev (String.rev s) = s.
Proof. apply chars_of_inj. by rewrite !chars_of_rev, reverse_involutive. Qed.

Lemma rev_app s t : String.rev (s +:+ t) = String.rev t +:+ String.rev s.
Proof.
  apply chars_of_inj.
  by rewrite chars_of_rev, !chars_of_app, !chars_of_rev, reverse_app.
Qed.

Lemma blank_rev s : blank s -> blank (String.rev s).
Proof.
  unfold blank. rewrite chars_of_rev. apply Forall_reverse.
Qed.

(** [lstrip] takes off a blank prefix and stops at the first character
    that is not white space. *)
Lemma lstrip_spec s :
  exists l, s = l +:+ lstrip s ∧ blank l ∧ ¬ starts_blank (lstrip s).
Proof.
  induction s as [|c s (l & Hs & Hl & Hn)].
  - exists EmptyString. split_and!; [done|constructor|tauto].
  - cbn [lstrip]. destruct (isspace c) eqn:E.
    + exists (String c l). split_and!; [|by constructor|done].
      change (String c l +:+ lstrip s) with (String c (l +:+ lstrip s)).
      by rewrite <- Hs.
    + exists EmptyString. split_and!; [done|constructor|].
      cbn. by rewrite E.
Qed.

(** [rstrip] does the same at the other end. *)
Lemma rstrip_spec s :
  exists r, s = rstrip s +:+ r ∧ blank r ∧ ¬ ends_blank (rstrip s).
Proof.
  destruct (lstrip_spec (String.rev s)) as (l & Hs & Hl & Hn).
  exists (String.rev l). unfold rstrip, ends_blank. split_and!.
  - rewrite <- rev_app, <- Hs. by rewrite rev_involutive.
  - by apply blank_rev.
  - by rewrite rev_involutive.
Qed.

(** [strip] is the input without its blank ends. *)
Lemma strip_spec s :
  exists l r,
    s = l +:+ strip s +:+ r ∧ blank l ∧ blank r
    ∧ ¬ starts_blank (strip s) ∧ ¬ ends_blank (strip s).
Proof.
  destruct (lstrip_spec s) as (l & Hs & Hl & Hn).
  destruct (rstrip_spec (lstrip s)) as (r & Hs' & Hr & Hn').
  exists l, r. unfold strip. split_and!; try done.
  - by rewrite <- Hs'.
  - rewrite Hs' in Hn. by destruct (rstrip (lstrip s)).
Qed.

(** The first piece of [s.split(sep)] is [s] up to the first [sep]. *)
Lemma split_head sep s :
  exists tl, split sep s = before_first sep s :: tl.
Proof.
  induction s as [|c r [tl IH]]; cbn [split before_first]; [by eexists|].
  destruct (Ascii.eqb c sep); [by eexists|].
  rewrite IH. by eexists.
Qed.

Lemma contains_chars c s : contains c s = true <-> c ∈ chars_of s.
Proof.
  unfold chars_of. induction s as [|c' r IH]; cbn.
  - split; [done|]. by intros ?%elem_of_nil.
  - rewrite elem_of_cons, <- IH.
    destruct (Ascii.eqb_spec c' c) as [->|Hne].
    + split; auto.
    + split; [auto|]. intros [->|?]; [done|assumption].
Qed.

Lemma no_space_chars w : no_space w <-> " "%char ∉ chars_of (english w).
Proof.
  unfold no_space. rewrite <- contains_chars.
  destruct (contains _ _); split; congruence.
Qed.

Lemma has_space_chars w : has_space w <-> " "%char ∈ chars_of (english w).
Proof. unfold has_space. apply contains_chars. Qed.

Lemma has_space_not_no_space w : has_space w <-> ¬ no_space w.
Proof.
  unfold has_space, no_space. destruct (contains _ _); split; congruence.
Qed.

Lemma correct_answer_before_first w :
  correct_answer_of w = Return (strip (before_first "," (english w))).
Proof.
  unfold correct_answer_of.
  destruct (split_head "," (english w)) as [tl ->]. done.
Qed.
End PyStrFacts.

Module StoreFacts.
Import Store.

Lemma entry_of_asdict w : entry_of_json (asdict w) = Return w.
Proof. by destruct w. Qed.

Lemma entries_of_asdict (l : list WordEntry) :
  entries_of_rows (asdict <$> l) = Return (list_to_set l).
Proof.
  induction l as [|w l IH]; [done|].
  cbn [fmap list_fmap entries_of_rows].
  change (list_fmap _ _ asdict l) with (asdict <$> l).
  by rewrite entry_of_asdict, IH.
Qed.

(** Reading back what was written gives the set that was written. *)
Lemma decode_encode (ws : gset WordEntry) :
  decode (encode ws) = Return ws.
Proof.
  unfold decode, encode. cbn [iterate].
  by rewrite entries_of_asdict, list_to_set_elements_L.
Qed.
End StoreFacts.

(* ===================================================================== *)
(** * What each method computes *)
(* ===================================================================== *)

Module EngineFacts.
Import Store Engine.

Ltac monad :=
  unfold bind, ret, lift, get, assign, ask, effect, print; cbn.

Lemma py_index_lookup {A} (l : list A) (i : Z) (a : A) :
  0 <= i -> l !! Z.to_nat i = Some a -> py_index l i = Return a.
Proof.
  intros Hi Hl. unfold py_index.
  pose proof (lookup_lt_Some _ _ _ Hl) as Hlt.
  destruct (Z.ltb_spec i 0); [lia|].
  destruct (Z.ltb_spec i 0); [lia|].
  destruct (Z.leb_spec (Z.of_nat (length l)) i); [lia|].
  cbn. by rewrite Hl.
Qed.

Lemma lookup_cursor {A} (l : list A) (i : Z) :
  0 <= i < len l -> is_Some (l !! Z.to_nat i).
Proof. unfold len. intros H. apply lookup_lt_is_Some_2. lia. Qed.

Lemma save_eq s :
  _save_wrong_words_to_disk s =
  (Return tt, mkState (self s) (after_save (wrong_words (self s)) (world s))).
Proof.
  unfold _save_wrong_words_to_disk, after_save. monad.
  by destruct (wrong_words_writable (world s)).
Qed.

Lemma get_next_question_eq s :
  get_next_question s =
  (if len (current_deck (self s)) <=? current_index (self s) then Return None
   else match py_index (current_deck (self s)) (current_index (self s)) with
        | Return w => Return (Some w)
        | Raise e => Raise e
        end, s).
Proof.
  unfold get_next_question, deck_finished, current_entry. monad.
  destruct (_ <=? _); [done|]. by destruct (py_index _ _).
Qed.

Lemma check_answer_eq u s :
  check_answer u s =
  if len (current_deck (self s)) <=? current_index (self s)
  then (Return false, s)
  else match py_index (current_deck (self s)) (current_index (self s)) with
       | Raise e => (Raise e, s)
       | Return w =>
           let ok := bool_decide (answer_matches u w) in
           let ws := if ok then wrong_words (self s)
                     else {[w]} ∪ wrong_words (self s) in
           (Return ok,
            mkState (with_current_index (current_index (self s) + 1)
                       (with_wrong_words ws (self s)))
                    (if ok then world s else after_save ws (world s)))
       end.
Proof.
  unfold check_answer, deck_finished, current_entry, advance. monad.
  destruct (_ <=? _); [done|].
  destruct (py_index _ _) as [w|e]; [|done].
  rewrite PyStrFacts.correct_answer_before_first.
  cbn. unfold answer_matches, normalized.
  destruct (String.eqb_spec (PyStr.lower (PyStr.strip u))
              (PyStr.lower (PyStr.strip (before_first "," (english w)))))
    as [E|E].
  - rewrite bool_decide_eq_true_2 by done. cbn. by destruct s as [[] ?].
  - rewrite bool_decide_eq_false_2 by done. cbn.
    rewrite save_eq. by cbn.
Qed.

Lemma skip_current_word_eq s :
  skip_current_word s =
  if len (current_deck (self s)) <=? current_index (self s)
  then (Return None, s)
  else match py_index (current_deck (self s)) (current_index (self s)) with
       | Raise e => (Raise e, s)
       | Return w =>
           let ws := {[w]} ∪ wrong_words (self s) in
           (Return (Some w),
            mkState (with_current_index (current_index (self s) + 1)
                       (with_wrong_words ws (self s)))
                    (after_save ws (world s)))
       end.
Proof.
  unfold skip_current_word, deck_finished, current_entry, advance. monad.
  destruct (_ <=? _); [done|].
  destruct (py_index _ _) as [w|e]; [|done].
  cbn. rewrite save_eq. by cbn.
Qed.

Lemma skip_without_penalty_eq s :
  skip_without_penalty s =
  if len (current_deck (self s)) <=? current_index (self s)
  then (Return None, s)
  else match py_index (current_deck (self s)) (current_index (self s)) with
       | Raise e => (Raise e, s)
       | Return w =>
           let present := bool_decide (w ∈ wrong_words (self s)) in
           let ws := if present then wrong_words (self s) ∖ {[w]}
                     else wrong_words (self s) in
           (Return (Some w),
            mkState (with_current_index (current_index (self s) + 1)
                       (with_wrong_words ws (self s)))
                    (if present then after_save ws (world s) else world s))
       end.
Proof.
  unfold skip_without_penalty, deck_finished, current_entry, advance. monad.
  destruct (_ <=? _); [done|].
  destruct (py_index _ _) as [w|e]; [|done]. cbn.
  destruct (decide (w ∈ wrong_words (self s))) as [E|E].
  - rewrite bool_decide_eq_true_2 by done. cbn. rewrite save_eq. by cbn.
  - rewrite bool_decide_eq_false_2 by done. cbn. by destruct s as [[] ?].
Qed.

Lemma shuffle_current_deck_eq s :
  shuffle_current_deck s =
  let r := Random.shuffle (current_deck (self s)) (random (world s)) in
  (Return tt, mkState (with_current_deck r.1 (self s))
                      (with_random r.2 (world s))).
Proof.
  unfold shuffle_current_deck. monad.
  by destruct (Random.shuffle _ _).
Qed.

Lemma start_review_mode_empty s :
  wrong_words (self s) = ∅ ->
  start_review_mode s =
  (Return false,
   mkState (self s)
           (with_stdout (stdout (world s) ++ [NoWrongWordsToReview]) (world s))).
Proof.
  intros H. unfold start_review_mode. monad.
  by rewrite decide_True by done.
Qed.

Lemma start_review_mode_nonempty s :
  wrong_words (self s) ≠ ∅ ->
  start_review_mode s =
  let ws := wrong_words (self s) in
  let w1 := after_save ∅
              (with_stdout (stdout (world s) ++ [StartingReview (size ws)])
                           (world s)) in
  let r := Random.shuffle (elements ws) (random w1) in
  (Return true,
   mkState (with_current_index 0
              (with_current_deck r.1 (with_wrong_words ∅ (self s))))
           (with_random r.2 w1)).
Proof.
  intros H. unfold start_review_mode. monad.
  rewrite decide_False by done. cbn.
  rewrite save_eq. cbn. rewrite shuffle_current_deck_eq. by cbn.
Qed.

Lemma call_load_word_list_eq book units s :
  call_load_word_list book units s =
  let r := Model.load_word_list (loader (self s)) (word_lists (world s))
             book units in
  (Return r.1,
   mkState (self s)
           (with_stdout (stdout (world s) ++ (FromLoader <$> r.2)) (world s))).
Proof.
  unfold call_load_word_list. monad. by destruct (Model.load_word_list _ _ _ _).
Qed.

Lemma start_game_eq book units fm om qm sfl row s :
  start_game book units fm om qm sfl row s =
  let r := Model.load_word_list (loader (self s)) (word_lists (world s))
             book units in
  let w1 := with_stdout (stdout (world s) ++ (FromLoader <$> r.2)) (world s) in
  let temp_deck := apply_filter fm r.1 in
  let sh := Random.shuffle temp_deck (random w1) in
  let random_order := String.eqb om "random" in
  (Return tt,
   mkState (mkEngine (loader (self s)) r.1
              (if random_order then sh.1 else temp_deck) 0 qm sfl row
              (wrong_words (self s)))
           (if random_order then with_random sh.2 w1 else w1)).
Proof.
  unfold start_game. monad. rewrite call_load_word_list_eq. cbn.
  destruct (String.eqb om "random"); [|done].
  rewrite shuffle_current_deck_eq. by cbn.
Qed.

(** ** Saving *)

Lemma stored_set_encode ws : stored_set (FileJson (encode ws)) = ws.
Proof. unfold stored_set. by rewrite StoreFacts.decode_encode. Qed.

Lemma file_after_save ws w :
  wrong_words_file (after_save ws w) =
  if wrong_words_writable w then FileJson (encode ws) else wrong_words_file w.
Proof. unfold after_save. destruct (wrong_words_writable w); by cbn. Qed.

Lemma writable_after_save ws w :
  wrong_words_writable (after_save ws w) = wrong_words_writable w.
Proof. unfold after_save. by destruct (wrong_words_writable w) eqn:E; cbn. Qed.

Lemma cursor_lookup s w :
  cursor_ok s ->
  current_deck (self s) !! Z.to_nat (current_index (self s)) = Some w ->
  (len (current_deck (self s)) <=? current_index (self s)) = false
  ∧ py_index (current_deck (self s)) (current_index (self s)) = Return w.
Proof.
  intros [H0 _] Hw. pose proof (lookup_lt_Some _ _ _ Hw) as Hlt.
  split; [apply Z.leb_gt; unfold len; lia|by apply py_index_lookup].
Qed.

Lemma cursor_lookup_None s :
  cursor_ok s ->
  current_deck (self s) !! Z.to_nat (current_index (self s)) = None ->
  (len (current_deck (self s)) <=? current_index (self s)) = true
  ∧ exhausted s.
Proof.
  intros [H0 H1] Hw. apply lookup_ge_None in Hw.
  unfold exhausted, len in *. split; [apply Z.leb_le|]; lia.
Qed.

(** ** The remaining methods *)

Lemma clear_wrong_words_cache_eq s :
  clear_wrong_words_cache s =
  let w1 := after_save ∅ (world s) in
  (Return tt,
   mkState (with_wrong_words ∅ (self s))
           (with_stdout (stdout w1 ++ [CacheCleared]) w1)).
Proof.
  unfold clear_wrong_words_cache. monad. rewrite save_eq. by cbn.
Qed.

Lemma get_progress_eq s :
  get_progress s =
  (Return (current_index (self s), len (current_deck (self s))), s).
Proof. by destruct s as [[] ?]. Qed.

Lemma get_wrong_word_count_eq s :
  get_wrong_word_count s = (Return (Z.of_nat (size (wrong_words (self s)))), s).
Proof. by destruct s as [[] ?]. Qed.

(** ** The cursor invariant *)

Lemma py_index_cursor {A} (l : list A) (i : Z) :
  0 <= i < len l -> exists a, py_index l i = Return a.
Proof.
  intros H. destruct (lookup_cursor l i H) as [a Ha].
  exists a. apply py_index_lookup; [lia|done].
Qed.

(** Every call keeps the cursor within the deck and returns normally. *)
Lemma run_call_cursor_ok c s :
  cursor_ok s -> (run_call c s).1 = false ∧ cursor_ok (run_call c s).2.
Proof.
  unfold cursor_ok. intros Hc.
  assert (forall (P : bool -> Prop),
            (len (current_deck (self s)) <= current_index (self s) -> P true) ->
            (current_index (self s) < len (current_deck (self s)) -> P false) ->
            P (len (current_deck (self s)) <=? current_index (self s))) as Hleb.
  { intros P Ht Hf. destruct (Z.leb_spec (len (current_deck (self s)))
                                (current_index (self s))); auto. }
  destruct c; cbn [run_call raises].
  - rewrite start_game_eq. cbn. split; [done|]. unfold len. lia.
  - destruct (decide (wrong_words (self s) = ∅)) as [E|E].
    + by rewrite (start_review_mode_empty s E).
    + rewrite (start_review_mode_nonempty s E). cbn. split; [done|].
      unfold len. lia.
  - rewrite get_next_question_eq. apply Hleb; [done|]. intros Hlt.
    destruct (py_index_cursor (current_deck (self s)) (current_index (self s)))
      as [w ->]; [lia|done].
  - rewrite check_answer_eq. apply Hleb; [done|]. intros Hlt.
    destruct (py_index_cursor (current_deck (self s)) (current_index (self s)))
      as [w ->]; [lia|]. cbn. split; [done|lia].
  - rewrite skip_current_word_eq. apply Hleb; [done|]. intros Hlt.
    destruct (py_index_cursor (current_deck (self s)) (current_index (self s)))
      as [w ->]; [lia|]. cbn. split; [done|lia].
  - rewrite skip_without_penalty_eq. apply Hleb; [done|]. intros Hlt.
    destruct (py_index_cursor (current_deck (self s)) (current_index (self s)))
      as [w ->]; [lia|]. cbn. split; [done|lia].
  - rewrite clear_wrong_words_cache_eq. by cbn.
  - by rewrite get_progress_eq.
  - by rewrite get_wrong_word_count_eq.
Qed.

Lemma run_calls_cursor_ok cs s :
  cursor_ok s -> (run_calls cs s).1 = false ∧ cursor_ok (run_calls cs s).2.
Proof.
  revert s. induction cs as [|c cs IH]; intros s Hc; [done|].
  cbn [run_calls]. destruct (run_call_cursor_ok c s Hc) as [Hr Hc'].
  destruct (run_call c s) as [[] s']; [done|]. by apply IH.
Qed.

(** The playing calls leave the deck in place. *)
Lemma run_call_plays_deck c s :
  plays c = true ->
  current_deck (self (run_call c s).2) = current_deck (self s).
Proof.
  destruct c; cbn [plays]; intros Hp; try discriminate Hp; cbn [run_call snd].
  - by rewrite get_next_question_eq.
  - rewrite check_answer_eq. destruct (_ <=? _); [done|].
    by destruct (py_index _ _).
  - rewrite skip_current_word_eq. destruct (_ <=? _); [done|].
    by destruct (py_index _ _).
  - rewrite skip_without_penalty_eq. destruct (_ <=? _); [done|].
    by destruct (py_index _ _).
  - by rewrite get_progress_eq.
  - by rewrite get_wrong_word_count_eq.
Qed.

Lemma run_calls_plays_deck cs s :
  forallb plays cs = true ->
  current_deck (self (run_calls cs s).2) = current_deck (self s).
Proof.
  revert s. induction cs as [|c cs IH]; intros s Hp; [done|].
  cbn in Hp. apply andb_prop in Hp as [Hc Hcs].
  cbn [run_calls]. pose proof (run_call_plays_deck c s Hc) as Hd.
  destruct (run_call c s) as [[] s']; [done|].
  cbn in Hd. by rewrite IH, Hd.
Qed.

(** ** The file follows the set *)

Lemma in_sync_unchanged s s' :
  wrong_words (self s') = wrong_words (self s) ->
  wrong_words_file (world s') = wrong_words_file (world s) ->
  in_sync s -> in_sync s'.
Proof. unfold in_sync. by intros -> ->. Qed.

(** Every call leaves the file in step with the set, as long as the file
    can be written. *)
Lemma run_call_in_sync c s :
  wrong_words_writable (world s) = true -> in_sync s ->
  wrong_words_writable (world (run_call c s).2) = true
  ∧ in_sync (run_call c s).2.
Proof.
  intros Hw Hs.
  destruct c; cbn [run_call snd].
  - rewrite start_game_eq. cbn.
    destruct (String.eqb _ _); (split; [done|]);
      by apply (in_sync_unchanged s).
  - destruct (decide (wrong_words (self s) = ∅)) as [E|E].
    + rewrite (start_review_mode_empty s E). cbn. split; [done|].
      by apply (in_sync_unchanged s).
    + rewrite (start_review_mode_nonempty s E). cbn.
      rewrite writable_after_save. split; [done|].
      unfold in_sync. cbn. rewrite file_after_save. cbn. rewrite Hw.
      apply stored_set_encode.
  - by rewrite get_next_question_eq.
  - rewrite check_answer_eq. destruct (_ <=? _); [done|].
    destruct (py_index _ _) as [w|]; [|done].
    destruct (bool_decide _); cbn.
    + split; [done|]. by apply (in_sync_unchanged s).
    + rewrite writable_after_save. split; [done|].
      unfold in_sync. cbn. rewrite file_after_save, Hw.
      apply stored_set_encode.
  - rewrite skip_current_word_eq. destruct (_ <=? _); [done|].
    destruct (py_index _ _) as [w|]; [|done]. cbn.
    rewrite writable_after_save. split; [done|].
    unfold in_sync. cbn. rewrite file_after_save, Hw.
    apply stored_set_encode.
  - rewrite skip_without_penalty_eq. destruct (_ <=? _); [done|].
    destruct (py_index _ _) as [w|]; [|done].
    destruct (bool_decide _); cbn.
    + rewrite writable_after_save. split; [done|].
      unfold in_sync. cbn. rewrite file_after_save, Hw.
      apply stored_set_encode.
    + split; [done|]. by apply (in_sync_unchanged s).
  - rewrite clear_wrong_words_cache_eq. cbn. rewrite writable_after_save.
    split; [done|]. unfold in_sync. cbn. rewrite file_after_save, Hw.
    apply stored_set_encode.
  - by rewrite get_progress_eq.
  - by rewrite get_wrong_word_count_eq.
Qed.

Lemma run_calls_in_sync cs s :
  wrong_words_writable (world s) = true -> in_sync s ->
  wrong_words_writable (world (run_calls cs s).2) = true
  ∧ in_sync (run_calls cs s).2.
Proof.
  revert s. induction cs as [|c cs IH]; intros s Hw Hs; [done|].
  cbn [run_calls]. destruct (run_call_in_sync c s Hw Hs) as [Hw' Hs'].
  destruct (run_call c s) as [[] s']; [done|]. by apply IH.
Qed.

(** What [init] leaves: the load returns, whatever the file. *)
Lemma init_eq l w :
  _load_wrong_words_from_disk
    (mkState (mkEngine l [] [] 0 "word" false false ∅) w)
  = (Return tt, init l w)
  ∧ init l w =
    mkState (mkEngine l [] [] 0 "word" false false
               (stored_set (wrong_words_file w)))
      (with_stdout
         (stdout w ++
            [match wrong_words_file w with
             | FileAbsent => NoWrongWordsFile
             | FileUnreadable e => ErrorLoadingWrongWords e
             | FileJson data =>
                 match decode data with
                 | Raise e => ErrorLoadingWrongWords e
                 | Return ws => LoadedWrongWords (size ws)
                 end
             end]) w).
Proof.
  unfold init, _load_wrong_words_from_disk, stored_set. monad.
  destruct (wrong_words_file w) as [|e|data]; [done..|].
  by destruct (decode data) as [ws|e].
Qed.

Lemma init_in_sync l w :
  in_sync (init l w) ∧ cursor_ok (init l w)
  ∧ wrong_words_writable (world (init l w)) = wrong_words_writable w.
Proof.
  rewrite (proj2 (init_eq l w)). unfold in_sync, cursor_ok. by cbn.
Qed.

(** ** Stored content the load gives up on *)







(** ** The deck of a new game *)

Lemma deck_perm s book units fm om qm sfl row :
  dealt_deck s book units fm om qm sfl row
  ≡ₚ apply_filter fm (loaded_words s book units).
Proof.
  unfold dealt_deck, loaded_words. rewrite start_game_eq. cbn.
  destruct (String.eqb om "random"); [|done].
  apply RandomFacts.shuffle_perm.
Qed.

Lemma deck_in_order s book units fm om qm sfl row :
  om ≠ "random" ->
  dealt_deck s book units fm om qm sfl row
  = apply_filter fm (loaded_words s book units).
Proof.
  intros Hom. unfold dealt_deck, loaded_words. rewrite start_game_eq. cbn.
  by apply String.eqb_neq in Hom as ->.
Qed.

Lemma apply_filter_other fm :
  fm ≠ "words_only" -> fm ≠ "phrases_only" -> forall l, apply_filter fm l = l.
Proof.
  intros H1 H2 l. unfold apply_filter.
  apply String.eqb_neq in H1 as ->. by apply String.eqb_neq in H2 as ->.
Qed.

End EngineFacts.

(* ===================================================================== *)
(** * Checks on concrete inputs *)
(* ===================================================================== *)

Module Examples.
Import Store Engine.

Example strip_both_ends : PyStr.strip "  give  up " = "give  up".
Proof. reflexivity. Qed.

Example split_on_commas :
  PyStr.split "," "run, runs,ran" = ["run"; " runs"; "ran"].
Proof. reflexivity. Qed.

Example split_without_separator : PyStr.split "," "cat" = ["cat"].
Proof. reflexivity. Qed.

Example lower_ascii : PyStr.lower "Give UP!" = "give up!".
Proof. reflexivity. Qed.

Example index_from_the_end : py_index [10; 20; 30] (-1) = Return 30.
Proof. reflexivity. Qed.

Example index_out_of_range : py_index [10; 20; 30] 3 = Raise IndexError.
Proof. reflexivity. Qed.

Example shuffle_five :
  (Random.shuffle [1; 2; 3; 4; 5] Demo.generator).1 = [2; 1; 5; 3; 4].
Proof. reflexivity. Qed.

(** The loader trims the cells and drops the row without an english
    cell; a unit file that does not exist is skipped with a warning. *)
Example load_demo_units :
  Model.load_word_list Demo.the_loader Demo.files "book1"
    ["unit1.csv"; "unit2.csv"]
  = ([Demo.run_runs; Demo.let_go; Demo.cat],
     [Model.WarningFileNotFound ["./data"; "book1"; "unit2.csv"]]).
Proof. vm_compute. reflexivity. Qed.

Example books_of_demo :
  Model.get_available_books Demo.the_loader Demo.files = (["book1"], []).
Proof. vm_compute. reflexivity. Qed.

(** An object without the three names is read as an entry of empty
    strings. *)
Example decode_empty_object :
  decode (JArr [JObj []])
  = Return ({[ mkWordEntry EmptyString EmptyString EmptyString ]} ∪ ∅).
Proof. reflexivity. Qed.

(** The scenario of the specification: a miss, a skip, a hit, the end. *)
Example play_through :
  let s1 := (check_answer "walk" Demo.playing).2 in
  let s2 := (skip_current_word s1).2 in
  let s3 := (check_answer "cat" s2).2 in
  (current_index (self s1), elements (wrong_words (self s1)))
    = (1, [Demo.run_runs])
  ∧ (skip_current_word s1).1 = Return (Some Demo.let_go)
  ∧ (current_index (self s2), elements (wrong_words (self s2)))
    = (2, [Demo.run_runs; Demo.let_go])
  ∧ (check_answer "cat" s2).1 = Return true
  ∧ (current_index (self s3), elements (wrong_words (self s3)))
    = (3, [Demo.run_runs; Demo.let_go])
  ∧ (get_next_question s3).1 = Return None.
Proof. cbv zeta. split_and!; vm_compute; reflexivity. Qed.

End Examples.

(* ===================================================================== *)
(** * The specification of the engine *)
(* ===================================================================== *)

Import Store Engine EngineFacts.

Ltac cursor_in_demo := unfold cursor_ok, len; cbn; lia.

(** ** Review rounds *)

(** C1. [start_review_mode] with nothing to review returns [False] and
    leaves the engine object (deck, cursor, wrong-word set), the stored
    file and the random generator as they were.  With something to review
    it returns [True]; the new deck is a rearrangement of the elements the
    set had before the call, the set is empty, the cursor is 0, and the
    file, when it can be written, already holds the empty set. *)
Theorem start_review_mode_spec (s : State) :
  let ws := wrong_words (self s) in
  let r := start_review_mode s in
  if decide (ws = ∅) then
    r.1 = Return false
    ∧ self r.2 = self s
    ∧ wrong_words_file (world r.2) = wrong_words_file (world s)
    ∧ random (world r.2) = random (world s)
  else
    r.1 = Return true
    ∧ current_deck (self r.2) ≡ₚ elements ws
    ∧ wrong_words (self r.2) = ∅
    ∧ current_index (self r.2) = 0
    ∧ if wrong_words_writable (world s)
      then wrong_words_file (world r.2) = FileJson (encode ∅) ∧ in_sync r.2
      else wrong_words_file (world r.2) = wrong_words_file (world s).
Proof.
  intros ws r. subst r. destruct (decide (ws = ∅)) as [E|E].
  - rewrite (start_review_mode_empty s E). by cbn.
  - rewrite (start_review_mode_nonempty s E). cbn.
    split_and!; try done.
    + apply RandomFacts.shuffle_perm.
    + unfold in_sync.
      cbn [self world wrong_words_file with_random wrong_words
             with_current_index with_current_deck with_wrong_words].
      rewrite file_after_save. cbn.
      destruct (wrong_words_writable (world s)); [|done].
      split; [done|]. apply stored_set_encode.
Qed.

(** ** Answers *)

(** C2. [check_answer] in a state whose cursor is within bounds.  At the
    end of the deck it returns [False] and changes nothing.  Otherwise,
    with [w] the entry under the cursor, it returns [True] exactly when
    the input, trimmed and lower-cased, equals the english field of [w]
    cut at its first comma, trimmed and lower-cased; on [False] the set
    gains [w] and the file, when it can be written, holds the new set; on
    [True] the set and everything outside the engine stay as they were;
    either way the cursor moves on by one and the deck stays. *)
Theorem check_answer_spec (user_input : string) (s : State) :
  cursor_ok s ->
  let i := current_index (self s) in
  let ws := wrong_words (self s) in
  let r := check_answer user_input s in
  match current_deck (self s) !! Z.to_nat i with
  | None => exhausted s ∧ r = (Return false, s)
  | Some w =>
      ¬ exhausted s
      ∧ r.1 = Return (bool_decide (answer_matches user_input w))
      ∧ current_index (self r.2) = i + 1
      ∧ current_deck (self r.2) = current_deck (self s)
      ∧ if decide (answer_matches user_input w)
        then wrong_words (self r.2) = ws ∧ world r.2 = world s
        else wrong_words (self r.2) = {[w]} ∪ ws
             ∧ wrong_words_file (world r.2) =
                 if wrong_words_writable (world s)
                 then FileJson (encode ({[w]} ∪ ws))
                 else wrong_words_file (world s)
  end.
Proof.
  intros Hc i ws r. subst r. rewrite check_answer_eq.
  destruct (current_deck (self s) !! Z.to_nat i) as [w|] eqn:Hw.
  - destruct (cursor_lookup s w Hc Hw) as [-> ->].
    assert (¬ exhausted s) as Hne.
    { unfold exhausted. apply lookup_lt_Some in Hw. unfold len. subst i. lia. }
    destruct (decide (answer_matches user_input w)) as [E|E].
    + rewrite bool_decide_eq_true_2 by done. by cbn.
    + rewrite bool_decide_eq_false_2 by done. cbn.
      split_and!; try done. apply file_after_save.
  - by destruct (cursor_lookup_None s Hc Hw) as [-> ?].
Qed.

(** [Run] is accepted for [run, runs]; [running] is not, and the entry
    goes to the wrong-word set while the cursor moves to 1. *)
Lemma check_answer_spec_witness :
  cursor_ok Demo.playing
  ∧ (check_answer "Run" Demo.playing).1 = Return true
  ∧ (check_answer "running" Demo.playing).1 = Return false
  ∧ wrong_words (self (check_answer "running" Demo.playing).2)
    = {[Demo.run_runs]} ∪ ∅
  ∧ current_index (self (check_answer "running" Demo.playing).2) = 1.
Proof.
  assert (cursor_ok Demo.playing) as Hc by cursor_in_demo.
  pose proof (check_answer_spec "Run" Demo.playing Hc) as Hrun.
  pose proof (check_answer_spec "running" Demo.playing Hc) as Hrunning.
  cbn in Hrun, Hrunning.
  destruct Hrun as (_ & Hrun & _).
  destruct Hrunning as (_ & Hr & Hi & _ & Hw & _).
  split_and!; [exact Hc|exact Hrun|exact Hr|exact Hw|exact Hi].
Defined.

(** ** Persistence *)

(** C3. Decoding what the save encodes gives back the set, whatever the
    set.  So, where the file can be written: an engine constructed on the
    file that [_save_wrong_words_to_disk] wrote starts with the set that
    was saved; and after any sequence of calls, from a newly constructed
    engine or from any state whose file agrees with its set, the file
    decodes to the set in memory (and, from a new engine, no call ends in
    an exception).  Where the file cannot be written, the save prints its
    error and leaves everything else as it was. *)
Theorem wrong_words_round_trip
    (l : Model.DataLoader) (w : World) (ws : gset WordEntry)
    (cs : list call) :
  decode (encode ws) = Return ws
  ∧ (wrong_words_writable w = true ->
     (forall e : GameEngine,
        let saved := (_save_wrong_words_to_disk
                        (mkState (with_wrong_words ws e) w)).2 in
        wrong_words_file (world saved) = FileJson (encode ws)
        ∧ wrong_words (self (init l (world saved))) = ws)
     ∧ ((run_calls cs (init l w)).1 = false
        ∧ in_sync (run_calls cs (init l w)).2)
     ∧ (forall s, world s = w -> in_sync s -> in_sync (run_calls cs s).2))
  ∧ (wrong_words_writable w = false ->
     forall e : GameEngine,
       _save_wrong_words_to_disk (mkState e w)
       = (Return tt,
          mkState e (with_stdout
                       (stdout w ++ [ErrorSavingWrongWords OSError]) w))).
Proof.
  split; [apply StoreFacts.decode_encode|].
  split; [|intros Hw e; rewrite save_eq; unfold after_save; cbn;
           by rewrite Hw].
  intros Hw. split_and!.
  - intros e saved. subst saved. rewrite save_eq. cbn [snd world self].
    destruct e; cbn [with_wrong_words wrong_words].
    rewrite file_after_save, Hw. split; [done|].
    rewrite (proj2 (init_eq _ _)), file_after_save, Hw. cbn.
    apply stored_set_encode.
  - by apply run_calls_cursor_ok, init_in_sync.
  - destruct (init_in_sync l w) as (Hs & Hc & Hw0).
    apply run_calls_in_sync; [congruence|done].
  - intros s <- Hs. by apply run_calls_in_sync.
Qed.

(** A game, a round of play and a review on a new engine. *)
Lemma wrong_words_round_trip_witness :
  wrong_words_writable Demo.world0 = true
  ∧ decode (encode {[Demo.run_runs; Demo.cat]})
    = Return {[Demo.run_runs; Demo.cat]}
  ∧ in_sync (run_calls (Demo.deal :: Demo.calls ++ [StartReviewMode])
               (init Demo.the_loader Demo.world0)).2.
Proof.
  destruct (wrong_words_round_trip Demo.the_loader Demo.world0
              {[Demo.run_runs; Demo.cat]}
              (Demo.deal :: Demo.calls ++ [StartReviewMode]))
    as (Hrt & Hsync & _).
  destruct (Hsync eq_refl) as (_ & [_ Hinit] & _).
  split_and!; [reflexivity|exact Hrt|exact Hinit].
Defined.

(** ** The cursor *)

(** C4. Once [start_game], or [start_review_mode] with a non-empty set,
    has dealt a deck, the cursor is 0, and after every prefix of every
    sequence of the playing calls (next question, answer, the two skips,
    progress, wrong-word count) no call has raised, the cursor lies
    between 0 and the length of that same deck, and it equals the length
    exactly when [get_next_question] reports the end. *)
Theorem cursor_bounds (start : call) (cs : list call) (s : State) :
  deals start s -> forallb plays cs = true ->
  let dealt := (run_call start s).2 in
  current_index (self dealt) = 0
  ∧ forall k,
      let r := run_calls (take k cs) dealt in
      r.1 = false
      ∧ cursor_ok r.2
      ∧ current_deck (self r.2) = current_deck (self dealt)
      ∧ (exhausted r.2 <-> (get_next_question r.2).1 = Return None).
Proof.
  intros Hd Hp dealt.
  assert (current_index (self dealt) = 0) as H0.
  { subst dealt. destruct start; try done; cbn [run_call snd].
    - by rewrite start_game_eq.
    - cbn in Hd. by rewrite (start_review_mode_nonempty s Hd). }
  split; [done|]. intros k r.
  assert (cursor_ok dealt) as Hc.
  { unfold cursor_ok. rewrite H0. unfold len. lia. }
  destruct (run_calls_cursor_ok (take k cs) dealt Hc) as [Hr Hc'].
  fold r in Hr, Hc'. split_and!; try done.
  - apply run_calls_plays_deck.
    apply forallb_forall. intros c Hin.
    apply (proj1 (forallb_forall plays cs) Hp).
    apply list_elem_of_In, elem_of_take in Hin as (i & Hi & _).
    apply list_elem_of_In, list_elem_of_lookup. eauto.
  - rewrite get_next_question_eq. cbn [fst]. unfold exhausted.
    destruct Hc' as [Hl Hu].
    destruct (Z.leb_spec (len (current_deck (self r.2)))
                (current_index (self r.2))) as [Hle|Hlt].
    + split; [done|lia].
    + destruct (py_index_cursor (current_deck (self r.2))
                  (current_index (self r.2))) as [a ->]; [lia|].
      split; [lia|done].
Qed.

(** A shuffled game of three entries, after two and after all seven
    calls of the round. *)
Lemma cursor_bounds_witness :
  deals Demo.deal Demo.idle
  ∧ forallb plays Demo.calls = true
  ∧ cursor_ok (run_calls Demo.calls (run_call Demo.deal Demo.idle).2).2
  ∧ cursor_ok (run_calls (take 2 Demo.calls)
                 (run_call Demo.deal Demo.idle).2).2.
Proof.
  destruct (cursor_bounds Demo.deal Demo.calls Demo.idle I eq_refl)
    as [_ Hk].
  split_and!; [exact I|reflexivity|exact (proj1 (proj2 (Hk 7%nat)))
              |exact (proj1 (proj2 (Hk 2%nat)))].
Defined.

(** ** Skipping without penalty *)

(** C5. [skip_without_penalty] in a state whose cursor is within bounds.
    At the end of the deck it returns [None] and changes nothing.
    Otherwise it returns the entry [w] under the cursor and moves the
    cursor on by one; if [w] is in the wrong-word set it is taken out and
    the file, when it can be written, holds the smaller set; if not, the
    set and everything outside the engine stay as they were.  And in any
    state, [check_answer], [skip_current_word] and [get_next_question]
    leave every element of the set in it. *)
Theorem skip_without_penalty_spec (s : State) :
  cursor_ok s ->
  let i := current_index (self s) in
  let ws := wrong_words (self s) in
  let r := skip_without_penalty s in
  match current_deck (self s) !! Z.to_nat i with
  | None => exhausted s ∧ r = (Return None, s)
  | Some w =>
      r.1 = Return (Some w)
      ∧ current_index (self r.2) = i + 1
      ∧ current_deck (self r.2) = current_deck (self s)
      ∧ if decide (w ∈ ws)
        then wrong_words (self r.2) = ws ∖ {[w]}
             ∧ wrong_words_file (world r.2) =
                 if wrong_words_writable (world s)
                 then FileJson (encode (ws ∖ {[w]}))
                 else wrong_words_file (world s)
        else wrong_words (self r.2) = ws ∧ world r.2 = world s
  end
  ∧ (forall user_input,
       ws ⊆ wrong_words (self (check_answer user_input s).2))
  ∧ ws ⊆ wrong_words (self (skip_current_word s).2)
  ∧ ws ⊆ wrong_words (self (get_next_question s).2).
Proof.
  intros Hc i ws r. split; [|split_and!].
  - subst r. rewrite skip_without_penalty_eq.
    destruct (current_deck (self s) !! Z.to_nat i) as [w|] eqn:Hw.
    + destruct (cursor_lookup s w Hc Hw) as [-> ->].
      destruct (decide (w ∈ ws)) as [E|E].
      * rewrite bool_decide_eq_true_2 by done. cbn.
        split_and!; try done. apply file_after_save.
      * rewrite bool_decide_eq_false_2 by done. by cbn.
    + by destruct (cursor_lookup_None s Hc Hw) as [-> ?].
  - intros u. rewrite check_answer_eq. destruct (_ <=? _); [done|].
    destruct (py_index _ _) as [w|]; [|done].
    destruct (bool_decide _); cbn; set_solver.
  - rewrite skip_current_word_eq. destruct (_ <=? _); [done|].
    destruct (py_index _ _) as [w|]; [|done]. cbn. set_solver.
  - by rewrite get_next_question_eq.
Qed.

(** The recorded miss is under the cursor: skipping it forgives it. *)
Lemma skip_without_penalty_spec_witness :
  cursor_ok Demo.with_miss
  ∧ (skip_without_penalty Demo.with_miss).1 = Return (Some Demo.run_runs)
  ∧ wrong_words (self (skip_without_penalty Demo.with_miss).2)
    = {[Demo.run_runs]} ∖ {[Demo.run_runs]}
  ∧ current_index (self (skip_without_penalty Demo.with_miss).2) = 1.
Proof.
  assert (cursor_ok Demo.with_miss) as Hc by cursor_in_demo.
  pose proof (skip_without_penalty_spec Demo.with_miss Hc) as [H _].
  cbn in H. destruct H as (Hr & Hi & _ & Hw & _).
  split_and!; [exact Hc|exact Hr|exact Hw|exact Hi].
Defined.

(** ** The deck of a new game *)

Section StartGame.
Variables (s : State) (book : string) (units : list string).
Variables (qm : string) (sfl row : bool).

Local Abbreviation loaded := (loaded_words s book units).
Local Abbreviation deck fm om := (dealt_deck s book units fm om qm sfl row).

(** C6. Whatever the order mode: the deck of a [words_only] game holds
    only entries whose english field has no space, that of a
    [phrases_only] game only entries whose english field has one; the deck
    of an [all] game is a rearrangement of the loaded list, of the same
    length, and is that very list unless the order is random; the loaded
    list is the [words_only] deck and the [phrases_only] deck put
    together, its length the sum of theirs, and no entry is in both. *)
Theorem start_game_filter_modes (om : string) :
  Forall (fun w => " "%char ∉ PyStr.chars_of (english w))
         (deck "words_only" om)
  ∧ Forall (fun w => " "%char ∈ PyStr.chars_of (english w))
           (deck "phrases_only" om)
  ∧ deck "all" om ≡ₚ loaded
  ∧ (if String.eqb om "random" then True else deck "all" om = loaded)
  ∧ length (deck "all" om) = length loaded
  ∧ loaded ≡ₚ deck "words_only" om ++ deck "phrases_only" om
  ∧ (length loaded =
     length (deck "words_only" om) + length (deck "phrases_only" om))%nat
  ∧ forall w, ¬ (w ∈ deck "words_only" om ∧ w ∈ deck "phrases_only" om).
Proof.
  assert (deck "words_only" om ≡ₚ filter no_space loaded) as Hw
    by apply deck_perm.
  assert (deck "phrases_only" om ≡ₚ filter has_space loaded) as Hp
    by apply deck_perm.
  assert (deck "all" om ≡ₚ loaded) as Ha by apply deck_perm.
  assert (filter has_space loaded = filter (fun w => ¬ no_space w) loaded)
    as Hneg.
  { apply list_filter_iff. intros w. apply PyStrFacts.has_space_not_no_space. }
  assert (loaded ≡ₚ deck "words_only" om ++ deck "phrases_only" om) as Hu.
  { rewrite Hw, Hp, Hneg. symmetry. apply filter_app_complement. }
  split_and!.
  - rewrite Hw. apply Forall_forall. intros w [Hns _]%list_elem_of_filter.
    by apply PyStrFacts.no_space_chars.
  - rewrite Hp. apply Forall_forall. intros w [Hhs _]%list_elem_of_filter.
    by apply PyStrFacts.has_space_chars.
  - done.
  - destruct (String.eqb om "random") eqn:E; [done|].
    apply String.eqb_neq in E. by apply deck_in_order.
  - by rewrite Ha.
  - done.
  - by rewrite Hu, length_app.
  - intros w [H1 H2]. rewrite Hw in H1. rewrite Hp in H2.
    apply list_elem_of_filter in H1 as [H1 _].
    apply list_elem_of_filter in H2 as [H2 _].
    by apply PyStrFacts.has_space_not_no_space in H2.
Qed.

(** C7. For every loaded list and filter mode: the deck of a
    [sequential] game is the filtered list itself, which keeps the
    loader's order; the deck of a [random] game is a rearrangement of the
    filtered list, with the same length and the same entries. *)
Theorem start_game_order_modes (fm : string) :
  let filtered := apply_filter fm loaded in
  deck fm "sequential" = filtered
  ∧ filtered `sublist_of` loaded
  ∧ deck fm "random" ≡ₚ filtered
  ∧ length (deck fm "random") = length filtered
  ∧ forall w, w ∈ deck fm "random" <-> w ∈ filtered.
Proof.
  intros filtered. split_and!.
  - by apply deck_in_order.
  - unfold filtered, apply_filter.
    repeat destruct (String.eqb _ _); try apply sublist_filter; done.
  - apply deck_perm.
  - by rewrite deck_perm.
  - intros w. by rewrite deck_perm.
Qed.

(** C10. A filter mode that is neither [words_only] nor [phrases_only]
    makes [start_game] do exactly what it does for [all], and an order
    mode that is not [random] exactly what it does for [sequential]: the
    same result and the same final state.  With both, the call returns
    normally, the deck is the loaded list and the cursor is 0. *)
Theorem start_game_unrecognized_modes (fm om : string) :
  fm ≠ "words_only" -> fm ≠ "phrases_only" -> om ≠ "random" ->
  (forall om', start_game book units fm om' qm sfl row s
               = start_game book units "all" om' qm sfl row s)
  ∧ (forall fm', start_game book units fm' om qm sfl row s
                 = start_game book units fm' "sequential" qm sfl row s)
  ∧ (start_game book units fm om qm sfl row s).1 = Return tt
  ∧ deck fm om = loaded
  ∧ current_index (self (start_game book units fm om qm sfl row s).2) = 0.
Proof.
  intros Hf1 Hf2 Ho. split_and!.
  - intros om'. rewrite !start_game_eq. cbn.
    by rewrite (apply_filter_other fm Hf1 Hf2).
  - intros fm'. rewrite !start_game_eq. cbn.
    by apply String.eqb_neq in Ho as ->.
  - by rewrite start_game_eq.
  - rewrite (deck_in_order _ _ _ fm om _ _ _ Ho). by apply apply_filter_other.
  - by rewrite start_game_eq.
Qed.

End StartGame.

(** The camel-case spellings and a capitalised [Random] are such
    modes. *)
Lemma start_game_unrecognized_modes_witness :
  "wordsOnly" ≠ "words_only" ∧ "wordsOnly" ≠ "phrases_only"
  ∧ "Random" ≠ "random"
  ∧ start_game "book1" ["unit1.csv"] "wordsOnly" "Random" "word" false false
      Demo.idle
    = start_game "book1" ["unit1.csv"] "all" "Random" "word" false false
        Demo.idle
  ∧ start_game "book1" ["unit1.csv"] "phrasesOnly" "Random" "word" false false
      Demo.idle
    = start_game "book1" ["unit1.csv"] "phrasesOnly" "sequential" "word"
        false false Demo.idle
  ∧ dealt_deck Demo.idle "book1" ["unit1.csv"] "wordsOnly" "Random" "word"
      false false
    = [Demo.run_runs; Demo.let_go; Demo.cat].
Proof.
  assert ("wordsOnly" ≠ "words_only") as H1 by discriminate.
  assert ("wordsOnly" ≠ "phrases_only") as H2 by discriminate.
  assert ("Random" ≠ "random") as H3 by discriminate.
  destruct (start_game_unrecognized_modes Demo.idle "book1" ["unit1.csv"]
              "word" false false "wordsOnly" "Random" H1 H2 H3)
    as (Hall & Hseq & _ & Hdeck & _).
  split_and!; [exact H1|exact H2|exact H3|exact (Hall "Random")
              |exact (Hseq "phrasesOnly")|].
  rewrite Hdeck. vm_compute. reflexivity.
Defined.

(** ** Asking for the next question *)

(** C8. [get_next_question] leaves the state as it was, so that a second
    call gives the same result; it returns [None] exactly when the cursor
    has reached the length of the deck; and with the cursor within
    bounds the result is the entry at the cursor, [None] exactly at the
    end of the deck. *)
Theorem get_next_question_pure (s : State) :
  let i := current_index (self s) in
  let deck := current_deck (self s) in
  let r := get_next_question s in
  r.2 = s
  ∧ get_next_question r.2 = r
  ∧ (r.1 = Return None <-> len deck <= i)
  ∧ (cursor_ok s ->
       r.1 = Return (deck !! Z.to_nat i)
       ∧ (r.1 = Return None <-> exhausted s)).
Proof.
  intros i deck r. subst r i deck. rewrite !get_next_question_eq.
  cbn [fst snd]. split_and!; try done.
  - destruct (Z.leb_spec (len (current_deck (self s)))
                (current_index (self s))) as [Hle|Hlt]; [done|].
    split; [|lia]. by destruct (py_index _ _).
  - intros Hc.
    destruct (current_deck (self s) !! Z.to_nat (current_index (self s)))
      as [w|] eqn:Hw.
    + destruct (cursor_lookup s w Hc Hw) as [-> ->].
      split; [done|]. split; [done|]. unfold exhausted.
      apply lookup_lt_Some in Hw. unfold len. lia.
    + by destruct (cursor_lookup_None s Hc Hw) as [-> ?].
Qed.

(** At the start of the demo deck the question is its first entry. *)
Lemma get_next_question_pure_witness :
  cursor_ok Demo.playing
  ∧ (get_next_question Demo.playing).1 = Return (Some Demo.run_runs)
  ∧ (get_next_question Demo.playing).2 = Demo.playing.
Proof.
  assert (cursor_ok Demo.playing) as Hc by cursor_in_demo.
  destruct (get_next_question_pure Demo.playing) as (Hs & _ & _ & Hat).
  destruct (Hat Hc) as [Hr _].
  split_and!; [exact Hc|exact Hr|exact Hs].
Defined.

(** ** Missing and corrupt resources *)




(* ===================================================================== *)
(** * The loader *)
(* ===================================================================== *)

Module StripFacts.
Import PyStr PyStrFacts.

Lemma lstrip_fixed s : ¬ starts_blank s -> lstrip s = s.
Proof.
  destruct s as [|c s]; [done|]. cbn. by destruct (isspace c).
Qed.

Lemma strip_fixed s : ¬ starts_blank s -> ¬ ends_blank s -> strip s = s.
Proof.
  intros Hs He. unfold strip, rstrip. rewrite (lstrip_fixed s Hs).
  rewrite (lstrip_fixed (String.rev s) He). apply rev_involutive.
Qed.

Lemma strip_idempotent s : strip (strip s) = strip s.
Proof.
  destruct (strip_spec s) as (l & r & _ & _ & _ & Hs & He).
  by apply strip_fixed.
Qed.

Lemma lstrip_blank s : blank s -> lstrip s = EmptyString.
Proof.
  unfold blank, chars_of. induction s as [|c s IH]; [done|].
  cbn. intros [Hc Hs]%Forall_cons. rewrite Hc. by apply IH.
Qed.

Lemma lstrip_app_blank l s : blank l -> lstrip (l +:+ s) = lstrip s.
Proof.
  unfold blank, chars_of. induction l as [|c l IH]; [done|].
  cbn. intros [Hc Hl]%Forall_cons.
  change (String c l +:+ s) with (String c (l +:+ s)). cbn.
  rewrite Hc. by apply IH.
Qed.

Lemma blank_app s t : blank (s +:+ t) <-> blank s ∧ blank t.
Proof. unfold blank. rewrite chars_of_app. apply Forall_app. Qed.

Lemma blank_rev_iff s : blank (String.rev s) <-> blank s.
Proof. unfold blank. rewrite chars_of_rev. apply Forall_reverse. Qed.

Lemma not_blank_lstrip_app s t :
  ¬ blank s -> lstrip (s +:+ t) = lstrip s +:+ t.
Proof.
  induction s as [|c s IH]; intros Hb.
  - destruct Hb. constructor.
  - change (String c s +:+ t) with (String c (s +:+ t)). cbn.
    destruct (isspace c) eqn:E; [|done].
    apply IH. intros Hs. apply Hb. by constructor.
Qed.

Lemma strip_blank s : blank s -> strip s = EmptyString.
Proof. intros H. unfold strip. by rewrite (lstrip_blank s H). Qed.

Lemma app_empty_r s : s +:+ EmptyString = s.
Proof. induction s as [|c s IH]; [done|].
  change (String c s +:+ EmptyString) with (String c (s +:+ EmptyString)).
  by rewrite IH. Qed.

Lemma app_assoc' s t u : (s +:+ t) +:+ u = s +:+ t +:+ u.
Proof. apply chars_of_inj. by rewrite !chars_of_app, app_assoc. Qed.

Lemma rstrip_app_blank s r : blank r -> rstrip (s +:+ r) = rstrip s.
Proof.
  intros Hr. unfold rstrip. rewrite rev_app.
  rewrite lstrip_app_blank; [done|]. by apply blank_rev_iff.
Qed.

Lemma blank_lstrip s : blank s <-> lstrip s = EmptyString.
Proof.
  split; [apply lstrip_blank|].
  destruct (lstrip_spec s) as (l & Hs & Hl & _). intros E.
  rewrite E, app_empty_r in Hs. by subst.
Qed.

Lemma strip_empty_iff s : strip s = EmptyString <-> blank s.
Proof.
  split; [|apply strip_blank].
  intros E. destruct (strip_spec s) as (l & r & Hs & Hl & Hr & _).
  rewrite E in Hs. rewrite Hs. cbn. apply blank_app. done.
Qed.

(** White space around a text does not change what [strip] returns. *)
Lemma strip_padded l s r : blank l -> blank r -> strip (l +:+ s +:+ r) = strip s.
Proof.
  intros Hl Hr. unfold strip. rewrite (lstrip_app_blank l _ Hl).
  destruct (decide (lstrip s = EmptyString)) as [E|E].
  - apply blank_lstrip in E as Hs.
    rewrite (lstrip_blank (s +:+ r)) by (by apply blank_app). by rewrite E.
  - rewrite not_blank_lstrip_app by (by rewrite blank_lstrip).
    by apply rstrip_app_blank.
Qed.

Lemma isspace_lower_char c : isspace (lower_char c) = isspace c.
Proof. by destruct c as [[] [] [] [] [] [] [] []]. Qed.

Lemma lower_app s t : lower (s +:+ t) = lower s +:+ lower t.
Proof.
  induction s as [|c s IH]; [done|].
  change (String c s +:+ t) with (String c (s +:+ t)). cbn. by rewrite IH.
Qed.

Lemma chars_of_lower s : chars_of (lower s) = lower_char <$> chars_of s.
Proof. unfold chars_of. induction s as [|c s IH]; cbn; [done|]. by rewrite IH. Qed.

Lemma lower_rev s : lower (String.rev s) = String.rev (lower s).
Proof.
  apply chars_of_inj.
  by rewrite chars_of_lower, !chars_of_rev, chars_of_lower, fmap_reverse.
Qed.

Lemma lstrip_lower s : lstrip (lower s) = lower (lstrip s).
Proof.
  induction s as [|c s IH]; [done|]. cbn.
  rewrite isspace_lower_char. by destruct (isspace c).
Qed.

(** Trimming and lower-casing can be done in either order. *)
Lemma strip_lower s : strip (lower s) = lower (strip s).
Proof.
  unfold strip, rstrip.
  by rewrite lstrip_lower, <- lower_rev, lstrip_lower, lower_rev.
Qed.

End StripFacts.

Module ModelFacts.
Import PyStr PyStrFacts StripFacts Model LoaderWords.

Lemma replace_absent a b s : a ∉ chars_of s -> replace a b s = s.
Proof.
  unfold chars_of. induction s as [|c s IH]; [done|]. cbn.
  intros [Hc Hs]%not_elem_of_cons.
  destruct (Ascii.eqb_spec c a) as [->|_]; [done|]. by rewrite IH.
Qed.

Lemma replace_removes a b s : a ≠ b -> a ∉ chars_of (replace a b s).
Proof.
  intros Hab. unfold chars_of. induction s as [|c s IH]; cbn.
  - apply not_elem_of_nil.
  - apply not_elem_of_cons. split; [|done].
    destruct (Ascii.eqb_spec c a); congruence.
Qed.

Lemma blank_replace_nbsp s : blank (replace "160" " " s) <-> blank s.
Proof.
  unfold blank, chars_of. induction s as [|c s IH]; [done|]. cbn.
  rewrite !Forall_cons, IH.
  destruct (Ascii.eqb_spec c "160"%char) as [->|_]; [|done].
  split; intros [_ ?]; done.
Qed.

Lemma sanitize_Some t :
  _sanitize_string (Some t)
  = strip (replace "160" " " (remove_zero_width t)).
Proof. by destruct t. Qed.

(** Deleting the zero-width spaces keeps every other character, in
    order. *)
Lemma plain_remove_zero_width t :
  plain (remove_zero_width t) = filter (fun c => c ≠ ZeroWidthSpace) t.
Proof.
  unfold plain, chars_of. induction t as [|[c|] t IH]; [done|..].
  - cbn. by rewrite IH.
  - cbn. by rewrite IH.
Qed.

Lemma remove_zero_width_plain s : remove_zero_width (plain s) = s.
Proof.
  unfold plain, chars_of. induction s as [|c s IH]; [done|]. cbn.
  by f_equal.
Qed.

Lemma strip_tidy s : "160"%char ∉ chars_of s -> tidy (strip s).
Proof.
  intros Hs. destruct (strip_spec s) as (l & r & E & _ & _ & H1 & H2).
  split_and!; [done..|]. intros Hin. apply Hs. rewrite E, !chars_of_app.
  set_solver.
Qed.

Lemma sanitize_tidy text : tidy (_sanitize_string text).
Proof.
  destruct text as [t|].
  - rewrite sanitize_Some. apply strip_tidy. by apply replace_removes.
  - split_and!; [tauto..|]. apply not_elem_of_nil.
Qed.

Lemma tidy_sanitize s : tidy s -> _sanitize_string (Some (plain s)) = s.
Proof.
  intros (H1 & H2 & H3).
  rewrite sanitize_Some, remove_zero_width_plain, replace_absent by done.
  by apply strip_fixed.
Qed.

Lemma sanitize_empty_iff t :
  _sanitize_string (Some t) = EmptyString <-> blank (remove_zero_width t).
Proof. by rewrite sanitize_Some, strip_empty_iff, blank_replace_nbsp. Qed.

(** ** The reading loop *)

Lemma entry_kept_iff row :
  is_empty (english (entry_of_row row)) = false <-> usable_row row.
Proof.
  unfold usable_row. destruct row as [[t|] c x];
    cbn [cell_english entry_of_row english]; [|done].
  rewrite <- sanitize_empty_iff.
  destruct (_sanitize_string (Some t)); cbn.
  - split; [done|]. intros H. by destruct H.
  - split; done.
Qed.

Lemma read_rows_usable rows :
  read_rows rows = entry_of_row <$> filter usable_row rows.
Proof.
  unfold read_rows. induction rows as [|row rows IH]; [done|].
  cbn [fmap list_fmap]. rewrite !filter_cons.
  change (list_fmap _ _ entry_of_row rows) with (entry_of_row <$> rows).
  rewrite IH.
  destruct (decide (usable_row row)) as [U|U].
  - rewrite decide_True by (by apply entry_kept_iff). done.
  - rewrite decide_False; [done|]. by rewrite entry_kept_iff.
Qed.

Lemma entry_of_row_tidy row :
  tidy (english (entry_of_row row)) ∧ tidy (chinese (entry_of_row row))
  ∧ tidy (examples (entry_of_row row)).
Proof. split_and!; apply sanitize_tidy. Qed.

(** ** The loop over the unit files *)

Lemma load_word_list_from_acc self fs book units acc out :
  load_word_list_from self fs book units acc out =
  (acc ++ (load_word_list self fs book units).1,
   out ++ (load_word_list self fs book units).2).
Proof.
  unfold load_word_list.
  revert acc out. induction units as [|u units IH]; intros acc out.
  - cbn. by rewrite !app_nil_r.
  - cbn [load_word_list_from].
    destruct (negb (fs_exists fs _)).
    + rewrite IH, (IH [] ([] ++ _)). cbn. by rewrite <- !app_assoc.
    + rewrite IH, (IH ([] ++ _)). cbn.
      destruct (csv_raises _); cbn; by rewrite <- !app_assoc.
Qed.

Lemma load_word_list_single self fs book u :
  load_word_list self fs book [u] =
  let file_path := [data_directory self; book; u] in
  if fs_exists fs file_path
  then (read_rows (csv_rows (fs_csv fs file_path)),
        if csv_raises (fs_csv fs file_path) then [ErrorReading file_path]
        else [])
  else ([], [WarningFileNotFound file_path]).
Proof.
  unfold load_word_list. cbn.
  destruct (fs_exists fs _); cbn; [|done]. by destruct (csv_raises _).
Qed.

Lemma load_word_list_cons self fs book u units :
  load_word_list self fs book (u :: units) =
  ((load_word_list self fs book [u]).1 ++ (load_word_list self fs book units).1,
   (load_word_list self fs book [u]).2 ++ (load_word_list self fs book units).2).
Proof.
  rewrite load_word_list_single.
  unfold load_word_list at 1. cbn [load_word_list_from]. cbn zeta.
  destruct (fs_exists fs _); cbn [negb fst snd];
    rewrite load_word_list_from_acc.
  - destruct (csv_raises _); reflexivity.
  - reflexivity.
Qed.

Lemma load_word_list_app self fs book units1 units2 :
  load_word_list self fs book (units1 ++ units2) =
  ((load_word_list self fs book units1).1
     ++ (load_word_list self fs book units2).1,
   (load_word_list self fs book units1).2
     ++ (load_word_list self fs book units2).2).
Proof.
  induction units1 as [|u units1 IH].
  - change ([] ++ units2) with units2.
    destruct (load_word_list self fs book units2); reflexivity.
  - cbn [app]. rewrite load_word_list_cons, IH, (load_word_list_cons _ _ _ u units1).
    cbn. by rewrite <- !app_assoc.
Qed.

End ModelFacts.

Section Loader.
Import PyStr PyStrFacts StripFacts LoaderWords ModelFacts.

(** X1. [_sanitize_string] deletes the zero-width spaces of the text and
    nothing else, turns no-break spaces into spaces and trims: what it
    returns has no white space at either end and no no-break space in it;
    it is empty exactly when the text is missing or holds white space and
    zero-width spaces only; and the text, with its zero-width spaces
    deleted (the other characters kept in order) and its no-break spaces
    turned into spaces, is the result with white space around it. *)
Theorem sanitize_string_clean (text : option Model.text) :
  let r := Model._sanitize_string text in
  tidy r
  ∧ (r = EmptyString <->
     match text with
     | Some t => blank (Model.remove_zero_width t)
     | None => True
     end)
  ∧ match text with
    | Some t =>
        Model.plain (Model.remove_zero_width t)
        = filter (fun c => c ≠ Model.ZeroWidthSpace) t
        ∧ exists before after,
            replace "160" " " (Model.remove_zero_width t)
            = before +:+ r +:+ after
            ∧ blank before ∧ blank after
    | None => True
    end.
Proof.
  intros r. split_and!.
  - apply sanitize_tidy.
  - destruct text as [t|]; [apply sanitize_empty_iff|done].
  - destruct text as [t|]; [|done]. split; [apply plain_remove_zero_width|].
    subst r. rewrite sanitize_Some.
    destruct (strip_spec (replace "160" " " (Model.remove_zero_width t)))
      as (l & r & E & Hl & Hr & _).
    by exists l, r.
Qed.

Lemma remove_zero_width_app t u :
  Model.remove_zero_width (t ++ u)
  = Model.remove_zero_width t +:+ Model.remove_zero_width u.
Proof.
  induction t as [|[c|] t IH]; [done|..]; cbn [app Model.remove_zero_width].
  - change (String c ?a +:+ ?b) with (String c (a +:+ b)). by rewrite IH.
  - done.
Qed.

Lemma replace_app a b s t :
  replace a b (s +:+ t) = replace a b s +:+ replace a b t.
Proof.
  induction s as [|c s IH]; [done|].
  change (String c s +:+ t) with (String c (s +:+ t)). cbn [replace].
  rewrite IH. by destruct (Ascii.eqb c a).
Qed.

(** X2. [_sanitize_string] applied to its own result changes nothing.
    And white space and zero-width spaces around a text, in any mixture,
    do not count: the text with and without them is sanitized to the
    same string. *)
Theorem sanitize_string_idempotent (text : option Model.text) :
  Model._sanitize_string (Some (Model.plain (Model._sanitize_string text)))
  = Model._sanitize_string text
  ∧ forall before t after,
      blank (Model.remove_zero_width before) ->
      blank (Model.remove_zero_width after) ->
      Model._sanitize_string (Some (before ++ t ++ after))
      = Model._sanitize_string (Some t).
Proof.
  split; [apply tidy_sanitize, sanitize_tidy|].
  intros before t after Hb Ha.
  rewrite !sanitize_Some, !remove_zero_width_app, !replace_app.
  apply strip_padded; by apply blank_replace_nbsp.
Qed.

Lemma elem_of_load self fs book units w :
  w ∈ (Model.load_word_list self fs book units).1 ->
  exists row, w = Model.entry_of_row row ∧ usable_row row.
Proof.
  induction units as [|u units IH].
  - by intros ?%elem_of_nil.
  - rewrite load_word_list_cons. cbn [fst].
    intros [Hu|Hin]%elem_of_app; [|by apply IH].
    rewrite load_word_list_single in Hu. cbn zeta in Hu.
    destruct (Model.fs_exists fs _); cbn [fst] in Hu;
      [|by apply elem_of_nil in Hu].
    rewrite read_rows_usable in Hu.
    apply list_elem_of_fmap in Hu as (row & -> & Hrow).
    apply list_elem_of_filter in Hrow as [Hrow _]. eauto.
Qed.

(** X3. Every entry that [load_word_list] returns has a non-empty
    english field, and none of its three fields starts or ends with white
    space or holds a no-break space. *)
Theorem loaded_entries_are_valid
    (self : Model.DataLoader) (fs : Model.FileSystem)
    (book : string) (units : list string) :
  Forall (fun w => english w ≠ EmptyString
                   ∧ tidy (english w) ∧ tidy (chinese w) ∧ tidy (examples w))
         (Model.load_word_list self fs book units).1.
Proof.
  apply Forall_forall. intros w (row & -> & Hrow)%elem_of_load.
  split; [|apply entry_of_row_tidy].
  apply entry_kept_iff in Hrow.
  by destruct (english (Model.entry_of_row row)).
Qed.

(** X4. For one unit whose file exists, [load_word_list] returns, in the
    order of the file, the entries of the rows whose english cell holds
    something other than white space and zero-width spaces, each cell
    sanitized, and it prints one reading error exactly when reading the
    file raised. *)
Theorem unit_rows_kept_in_order
    (self : Model.DataLoader) (fs : Model.FileSystem) (book u : string) :
  let file_path := [Model.data_directory self; book; u] in
  Model.fs_exists fs file_path = true ->
  (Model.load_word_list self fs book [u]).1
  = Model.entry_of_row
      <$> filter usable_row (Model.csv_rows (Model.fs_csv fs file_path))
  ∧ (Model.load_word_list self fs book [u]).2
    = if Model.csv_raises (Model.fs_csv fs file_path)
      then [Model.ErrorReading file_path] else [].
Proof.
  intros p Hx. rewrite load_word_list_single. cbn zeta. fold p. rewrite Hx.
  cbn [fst snd]. by rewrite read_rows_usable.
Qed.

Lemma unit_rows_kept_in_order_witness :
  Model.fs_exists Demo.files Demo.unit1_path = true
  ∧ (Model.load_word_list Demo.the_loader Demo.files "book1" ["unit1.csv"]).1
    = Model.entry_of_row <$> filter usable_row (Model.csv_rows Demo.unit1).
Proof.
  split; [reflexivity|].
  exact (proj1 (unit_rows_kept_in_order Demo.the_loader Demo.files "book1"
                  "unit1.csv" eq_refl)).
Defined.

(** X5. [load_word_list] on one list of units followed by another
    returns the entries of the first followed by those of the second, and
    prints the messages in the same order; so a unit named twice is loaded
    twice; no unit gives no entry and no message. *)
Theorem load_word_list_concatenates
    (self : Model.DataLoader) (fs : Model.FileSystem) (book : string)
    (units1 units2 : list string) :
  let load := Model.load_word_list self fs book in
  load (units1 ++ units2)
  = ((load units1).1 ++ (load units2).1, (load units1).2 ++ (load units2).2)
  ∧ (load (units1 ++ units1)).1 = (load units1).1 ++ (load units1).1
  ∧ load [] = ([], []).
Proof.
  intros load. subst load. split_and!.
  - apply load_word_list_app.
  - by rewrite load_word_list_app.
  - done.
Qed.

(** X6. Units whose file does not exist give no entry and one warning
    each, in the order of the units. *)
Theorem load_word_list_missing_units
    (self : Model.DataLoader) (fs : Model.FileSystem) (book : string)
    (units : list string) :
  Forall (fun u => Model.fs_exists fs [Model.data_directory self; book; u]
                   = false) units ->
  Model.load_word_list self fs book units
  = ([], (fun u => Model.WarningFileNotFound
                     [Model.data_directory self; book; u]) <$> units).
Proof.
  induction units as [|u units IH]; [done|].
  intros [Hu Hus]%Forall_cons.
  rewrite load_word_list_cons, load_word_list_single, (IH Hus). cbn zeta.
  by rewrite Hu.
Qed.

Lemma load_word_list_missing_units_witness :
  Forall (fun u => Model.fs_exists Demo.files
                     [Model.data_directory Demo.the_loader; "book1"; u]
                   = false) ["unit7.csv"; "unit9.csv"]
  ∧ Model.load_word_list Demo.the_loader Demo.files "book1"
      ["unit7.csv"; "unit9.csv"]
    = ([], [Model.WarningFileNotFound ["./data"; "book1"; "unit7.csv"];
            Model.WarningFileNotFound ["./data"; "book1"; "unit9.csv"]]).
Proof.
  assert (Forall (fun u => Model.fs_exists Demo.files
                     [Model.data_directory Demo.the_loader; "book1"; u]
                   = false) ["unit7.csv"; "unit9.csv"]) as H.
  { repeat constructor. }
  split; [exact H|].
  exact (load_word_list_missing_units Demo.the_loader Demo.files "book1"
           ["unit7.csv"; "unit9.csv"] H).
Defined.

Lemma endswith_csv_suffix f :
  Model.endswith_csv f = true <-> exists stem, f = stem +:+ ".csv".
Proof.
  unfold Model.endswith_csv. split.
  - destruct (String.rev f) as [|c1 r1] eqn:E; [done|].
    destruct c1 as [[] [] [] [] [] [] [] []]; try discriminate.
    destruct r1 as [|c2 r2]; [discriminate|].
    destruct c2 as [[] [] [] [] [] [] [] []]; try discriminate.
    destruct r2 as [|c3 r3]; [discriminate|].
    destruct c3 as [[] [] [] [] [] [] [] []]; try discriminate.
    destruct r3 as [|c4 rest]; [discriminate|].
    destruct c4 as [[] [] [] [] [] [] [] []]; try discriminate.
    intros _. exists (String.rev rest).
    rewrite <- (rev_involutive f), E.
    change (String "v" (String "s" (String "c" (String "." rest))))
      with ("vsc." +:+ rest).
    by rewrite rev_app.
  - intros [stem ->]. rewrite rev_app.
    change (String.rev ".csv") with "vsc.". done.
Qed.

(** X7. [get_available_books] lists exactly the names in the data
    directory that are directories, and [get_units_for_book] exactly the
    names in the book's directory that end in [.csv] and are files, both
    only when the directory exists; where listing the directory raises,
    both return the empty list. *)
Theorem listings_are_filtered
    (self : Model.DataLoader) (fs : Model.FileSystem) (book : string) :
  let root := [Model.data_directory self] in
  let book_path := [Model.data_directory self; book] in
  (forall d, d ∈ (Model.get_available_books self fs).1 <->
     Model.fs_exists fs root = true
     ∧ exists names, Model.fs_listdir fs root = Some names ∧ d ∈ names
                     ∧ Model.fs_isdir fs (root ++ [d]) = true)
  ∧ (forall f, f ∈ (Model.get_units_for_book self fs book).1 <->
       Model.fs_exists fs book_path = true
       ∧ exists names, Model.fs_listdir fs book_path = Some names ∧ f ∈ names
                       ∧ (exists stem, f = stem +:+ ".csv")
                       ∧ Model.fs_isfile fs (book_path ++ [f]) = true)
  ∧ (Model.fs_listdir fs book_path = None ->
     (Model.get_units_for_book self fs book).1 = [])
  ∧ (Model.fs_listdir fs root = None ->
     (Model.get_available_books self fs).1 = []).
Proof.
  intros root book_path. split_and!.
  - intros d. unfold Model.get_available_books. fold root.
    destruct (Model.fs_exists fs root); cbn [negb fst].
    + destruct (Model.fs_listdir fs root) as [names|]; cbn [fst].
      * rewrite list_elem_of_filter. split.
        -- intros [Hd Hin]. split; [done|]. by exists names.
        -- intros [_ (names' & [= <-] & Hin & Hd)]. done.
      * split; [by intros ?%elem_of_nil|]. by intros [_ (? & [=] & _)].
    + split; [by intros ?%elem_of_nil|]. by intros [[=] _].
  - intros f. unfold Model.get_units_for_book. fold book_path.
    destruct (Model.fs_exists fs book_path); cbn [negb fst].
    + destruct (Model.fs_listdir fs book_path) as [names|]; cbn [fst].
      * rewrite list_elem_of_filter, andb_true_iff, endswith_csv_suffix.
        split.
        -- intros [[Hs Hf] Hin]. split; [done|]. by exists names.
        -- intros [_ (names' & [= <-] & Hin & Hs & Hf)]. done.
      * split; [by intros ?%elem_of_nil|]. by intros [_ (? & [=] & _)].
    + split; [by intros ?%elem_of_nil|]. by intros [[=] _].
  - intros Hl. unfold Model.get_units_for_book. fold book_path.
    destruct (Model.fs_exists fs book_path); cbn [negb fst]; [|done].
    by rewrite Hl.
  - intros Hl. unfold Model.get_available_books. fold root.
    destruct (Model.fs_exists fs root); cbn [negb fst]; [|done].
    by rewrite Hl.
Qed.

End Loader.

(* ===================================================================== *)
(** * Play *)
(* ===================================================================== *)

Module PlayFacts.
Import PlayWords.
#[local] Set Warnings "-clear-no-such-hyp".

Lemma served_step s w :
  0 <= current_index (self s) ->
  current_deck (self s) !! Z.to_nat (current_index (self s)) = Some w ->
  forall e wd,
    current_deck e = current_deck (self s) ->
    current_index e = current_index (self s) + 1 ->
    served (mkState e wd) = served s ∪ {[w]}.
Proof.
  intros H0 Hw e wd Hd Hi. unfold served. cbn [self]. rewrite Hd, Hi.
  replace (Z.to_nat (current_index (self s) + 1))
    with (S (Z.to_nat (current_index (self s)))) by lia.
  rewrite (take_S_r _ _ _ Hw), list_to_set_app_L. cbn. set_solver.
Qed.

(** One playing call: what can enter and what can leave the set. *)
Lemma run_call_plays_bounds c s :
  cursor_ok s -> plays c = true ->
  let s' := (run_call c s).2 in
  served s ⊆ served s'
  ∧ wrong_words (self s') ⊆ wrong_words (self s) ∪ served s'
  ∧ wrong_words (self s) ∖ served s' ⊆ wrong_words (self s').
Proof.
  intros Hc Hp s'. subst s'.
  assert (forall r : State,
            r = s -> served s ⊆ served r
                     ∧ wrong_words (self r) ⊆ wrong_words (self s) ∪ served r
                     ∧ wrong_words (self s) ∖ served r ⊆ wrong_words (self r))
    as Hsame by (intros r ->; set_solver).
  destruct c; try discriminate Hp; cbn [run_call snd].
  - rewrite get_next_question_eq. by apply Hsame.
  - rewrite check_answer_eq.
    destruct (current_deck (self s) !! Z.to_nat (current_index (self s)))
      as [w|] eqn:Hw.
    + destruct (cursor_lookup s w Hc Hw) as [-> ->]. cbn zeta. cbn [snd].
      erewrite (served_step s w (proj1 Hc) Hw); [|done..].
      destruct (bool_decide _); cbn; set_solver.
    + destruct (cursor_lookup_None s Hc Hw) as [-> _]. by apply Hsame.
  - rewrite skip_current_word_eq.
    destruct (current_deck (self s) !! Z.to_nat (current_index (self s)))
      as [w|] eqn:Hw.
    + destruct (cursor_lookup s w Hc Hw) as [-> ->]. cbn zeta. cbn [snd].
      erewrite (served_step s w (proj1 Hc) Hw); [|done..].
      cbn; set_solver.
    + destruct (cursor_lookup_None s Hc Hw) as [-> _]. by apply Hsame.
  - rewrite skip_without_penalty_eq.
    destruct (current_deck (self s) !! Z.to_nat (current_index (self s)))
      as [w|] eqn:Hw.
    + destruct (cursor_lookup s w Hc Hw) as [-> ->]. cbn zeta. cbn [snd].
      erewrite (served_step s w (proj1 Hc) Hw); [|done..].
      destruct (bool_decide _); cbn; set_solver.
    + destruct (cursor_lookup_None s Hc Hw) as [-> _]. by apply Hsame.
  - rewrite get_progress_eq. by apply Hsame.
  - rewrite get_wrong_word_count_eq. by apply Hsame.
Qed.

Lemma run_calls_plays_bounds cs s :
  cursor_ok s -> forallb plays cs = true ->
  let s' := (run_calls cs s).2 in
  served s ⊆ served s'
  ∧ wrong_words (self s') ⊆ wrong_words (self s) ∪ served s'
  ∧ wrong_words (self s) ∖ served s' ⊆ wrong_words (self s').
Proof.
  revert s. induction cs as [|c cs IH]; intros s Hc Hp; [cbn; set_solver|].
  cbn in Hp. apply andb_prop in Hp as [Hpc Hpcs].
  cbn [run_calls].
  destruct (run_call_cursor_ok c s Hc) as [Hr Hc'].
  pose proof (run_call_plays_bounds c s Hc Hpc) as (H1 & H2 & H3).
  destruct (run_call c s) as [[] s1]; [done|]. cbn [snd] in *.
  destruct (IH s1 Hc' Hpcs) as (I1 & I2 & I3). cbn zeta.
  split_and!; set_solver.
Qed.

Lemma served_subseteq_deck s :
  forall w, w ∈ served s -> w ∈ current_deck (self s).
Proof.
  intros w. unfold served. rewrite elem_of_list_to_set.
  apply subseteq_take.
Qed.

(** One advancing call moves the cursor on by one, up to the end. *)
Lemma run_call_advances c s :
  cursor_ok s -> advances c = true ->
  current_index (self (run_call c s).2)
  = Z.min (current_index (self s) + 1) (len (current_deck (self s))).
Proof.
  intros Hc Ha.
  assert (forall w,
            current_deck (self s) !! Z.to_nat (current_index (self s)) = Some w
            -> current_index (self s) + 1
               = Z.min (current_index (self s) + 1) (len (current_deck (self s))))
    as Hin.
  { intros w Hw%lookup_lt_Some. unfold len. lia. }
  assert (current_deck (self s) !! Z.to_nat (current_index (self s)) = None
          -> current_index (self s)
             = Z.min (current_index (self s) + 1) (len (current_deck (self s))))
    as Hout.
  { intros Hw. destruct (cursor_lookup_None s Hc Hw) as [_ He].
    unfold exhausted in He. lia. }
  destruct c; try discriminate Ha; cbn [run_call snd].
  - rewrite check_answer_eq.
    destruct (current_deck (self s) !! Z.to_nat (current_index (self s)))
      as [w|] eqn:Hw.
    + destruct (cursor_lookup s w Hc Hw) as [-> ->]. cbn. by apply (Hin w).
    + destruct (cursor_lookup_None s Hc Hw) as [-> _]. by apply Hout.
  - rewrite skip_current_word_eq.
    destruct (current_deck (self s) !! Z.to_nat (current_index (self s)))
      as [w|] eqn:Hw.
    + destruct (cursor_lookup s w Hc Hw) as [-> ->]. cbn. by apply (Hin w).
    + destruct (cursor_lookup_None s Hc Hw) as [-> _]. by apply Hout.
  - rewrite skip_without_penalty_eq.
    destruct (current_deck (self s) !! Z.to_nat (current_index (self s)))
      as [w|] eqn:Hw.
    + destruct (cursor_lookup s w Hc Hw) as [-> ->]. cbn. by apply (Hin w).
    + destruct (cursor_lookup_None s Hc Hw) as [-> _]. by apply Hout.
Qed.

Lemma advances_plays c : advances c = true -> plays c = true.
Proof. by destruct c. Qed.

Lemma run_calls_advances cs s :
  cursor_ok s -> forallb advances cs = true ->
  current_index (self (run_calls cs s).2)
  = Z.min (current_index (self s) + Z.of_nat (length cs))
          (len (current_deck (self s))).
Proof.
  revert s. induction cs as [|c cs IH]; intros s Hc Ha.
  - cbn. destruct Hc. lia.
  - cbn in Ha. apply andb_prop in Ha as [Hac Hacs].
    cbn [run_calls].
    destruct (run_call_cursor_ok c s Hc) as [Hr Hc'].
    pose proof (run_call_advances c s Hc Hac) as Hi.
    pose proof (run_call_plays_deck c s (advances_plays c Hac)) as Hd.
    destruct (run_call c s) as [[] s1]; [done|]. cbn [snd] in *.
    rewrite (IH s1 Hc' Hacs), Hi, Hd. cbn [length]. lia.
Qed.

End PlayFacts.

Section Play.
Import PlayWords PlayFacts.
#[local] Set Warnings "-clear-no-such-hyp".

(** X8. [skip_current_word] in a state whose cursor is within bounds.  At
    the end of the deck it returns [None] and changes nothing.  Otherwise
    it returns the entry under the cursor, moves the cursor on by one and
    keeps the deck; the set gains the entry and the file, when it can be
    written, holds the new set. *)
Theorem skip_current_word_spec (s : State) :
  cursor_ok s ->
  let i := current_index (self s) in
  let ws := wrong_words (self s) in
  let r := skip_current_word s in
  match current_deck (self s) !! Z.to_nat i with
  | None => exhausted s ∧ r = (Return None, s)
  | Some w =>
      r.1 = Return (Some w)
      ∧ current_index (self r.2) = i + 1
      ∧ current_deck (self r.2) = current_deck (self s)
      ∧ wrong_words (self r.2) = {[w]} ∪ ws
      ∧ wrong_words_file (world r.2) =
          if wrong_words_writable (world s)
          then FileJson (encode ({[w]} ∪ ws))
          else wrong_words_file (world s)
  end.
Proof.
  intros Hc i ws r. subst r. rewrite skip_current_word_eq.
  destruct (current_deck (self s) !! Z.to_nat i) as [w|] eqn:Hw.
  - destruct (cursor_lookup s w Hc Hw) as [-> ->]. cbn.
    split_and!; try done. apply file_after_save.
  - by destruct (cursor_lookup_None s Hc Hw) as [-> ?].
Qed.

Lemma skip_current_word_spec_witness :
  cursor_ok Demo.playing
  ∧ (skip_current_word Demo.playing).1 = Return (Some Demo.run_runs)
  ∧ wrong_words (self (skip_current_word Demo.playing).2)
    = {[Demo.run_runs]} ∪ ∅
  ∧ current_index (self (skip_current_word Demo.playing).2) = 1.
Proof.
  assert (cursor_ok Demo.playing) as Hc by cursor_in_demo.
  pose proof (skip_current_word_spec Demo.playing Hc) as H.
  cbn in H. destruct H as (Hr & Hi & _ & Hw & _).
  split_and!; [exact Hc|exact Hr|exact Hw|exact Hi].
Defined.

(** X9. [clear_wrong_words_cache] returns in every state; it empties the
    set and leaves the deck, the cursor and the word list as they were;
    the file, when it can be written, holds the empty set.  Afterwards the
    count is 0, [start_review_mode] returns [False] and leaves the engine
    as it is, and so does a second clearing. *)
Theorem clear_wrong_words_cache_spec (s : State) :
  let r := clear_wrong_words_cache s in
  r.1 = Return tt
  ∧ wrong_words (self r.2) = ∅
  ∧ current_deck (self r.2) = current_deck (self s)
  ∧ current_index (self r.2) = current_index (self s)
  ∧ all_words (self r.2) = all_words (self s)
  ∧ wrong_words_file (world r.2)
    = (if wrong_words_writable (world s) then FileJson (encode ∅)
       else wrong_words_file (world s))
  ∧ (get_wrong_word_count r.2).1 = Return 0
  ∧ (start_review_mode r.2).1 = Return false
  ∧ self (start_review_mode r.2).2 = self r.2
  ∧ self (clear_wrong_words_cache r.2).2 = self r.2.
Proof.
  intros r. subst r. rewrite clear_wrong_words_cache_eq. cbn zeta.
  cbn [fst snd]. split_and!; try done.
  - cbn. apply file_after_save.
  - rewrite clear_wrong_words_cache_eq. by destruct s as [[] ?].
Qed.

(** X10. From a cursor [i] within bounds of a deck of [n] entries, [k]
    calls among [check_answer], [skip_current_word] and
    [skip_without_penalty] raise nothing and leave the cursor at
    [min (i + k) n]; [get_progress] reports that position and [n]; and
    once [k] is at least [n - i], [get_next_question] returns [None]. *)
Theorem advancing_calls_exhaust_the_deck (cs : list call) (s : State) :
  cursor_ok s -> forallb advances cs = true ->
  let i := current_index (self s) in
  let n := len (current_deck (self s)) in
  let r := run_calls cs s in
  r.1 = false
  ∧ current_index (self r.2) = Z.min (i + Z.of_nat (length cs)) n
  ∧ (get_progress r.2).1 = Return (Z.min (i + Z.of_nat (length cs)) n, n)
  ∧ (n - i <= Z.of_nat (length cs) ->
     (get_next_question r.2).1 = Return None).
Proof.
  intros Hc Ha i n r.
  assert (forallb plays cs = true) as Hp.
  { apply forallb_forall. intros c Hin. apply advances_plays.
    by apply (proj1 (forallb_forall advances cs) Ha). }
  destruct (run_calls_cursor_ok cs s Hc) as [Hr Hc'].
  pose proof (run_calls_advances cs s Hc Ha) as Hi.
  pose proof (run_calls_plays_deck cs s Hp) as Hd.
  fold r in Hr, Hc', Hi, Hd. fold i n in Hi.
  split_and!; try done.
  - rewrite get_progress_eq. cbn. by rewrite Hi, Hd.
  - intros Hn. rewrite get_next_question_eq. cbn [fst].
    rewrite Hi, Hd. fold n.
    destruct (Z.leb_spec n (Z.min (i + Z.of_nat (length cs)) n)); [done|lia].
Qed.

Lemma advancing_calls_exhaust_the_deck_witness :
  cursor_ok Demo.playing
  ∧ forallb advances [CheckAnswer "run"; SkipCurrentWord; SkipWithoutPenalty;
                      CheckAnswer "late"] = true
  ∧ current_index
      (self (run_calls [CheckAnswer "run"; SkipCurrentWord;
                        SkipWithoutPenalty; CheckAnswer "late"]
               Demo.playing).2) = 3.
Proof.
  assert (cursor_ok Demo.playing) as Hc by cursor_in_demo.
  destruct (advancing_calls_exhaust_the_deck
              [CheckAnswer "run"; SkipCurrentWord; SkipWithoutPenalty;
               CheckAnswer "late"] Demo.playing Hc eq_refl)
    as (_ & Hi & _).
  split_and!; [exact Hc|reflexivity|exact Hi].
Defined.

(** X11. A review round never adds to what was to be reviewed.  The deck
    that [start_review_mode] deals from a non-empty set has no entry
    twice; after any playing calls the set holds only entries the cursor
    has passed, and those were all in the set before the review. *)
Theorem review_round_only_shrinks (cs : list call) (s : State) :
  wrong_words (self s) ≠ ∅ -> forallb plays cs = true ->
  let dealt := (start_review_mode s).2 in
  let s' := (run_calls cs dealt).2 in
  NoDup (current_deck (self dealt))
  ∧ wrong_words (self s') ⊆ served s'
  ∧ served s' ⊆ wrong_words (self s)
  ∧ wrong_words (self s') ⊆ wrong_words (self s).
Proof.
  intros Hne Hp dealt s'.
  assert (current_deck (self dealt) ≡ₚ elements (wrong_words (self s))
          ∧ wrong_words (self dealt) = ∅
          ∧ current_index (self dealt) = 0) as (Hd & Hw & Hi).
  { subst dealt. rewrite (start_review_mode_nonempty s Hne). cbn.
    split_and!; try done. apply RandomFacts.shuffle_perm. }
  assert (cursor_ok dealt) as Hc.
  { unfold cursor_ok. rewrite Hi. unfold len. lia. }
  destruct (run_calls_plays_bounds cs dealt Hc Hp) as (_ & Hup & _).
  fold s' in Hup. rewrite Hw in Hup.
  assert (served s' ⊆ wrong_words (self s)) as Hs.
  { intros w Hin%served_subseteq_deck. subst s'.
    rewrite (run_calls_plays_deck cs dealt Hp), Hd in Hin.
    by apply elem_of_elements in Hin. }
  split_and!.
  - rewrite Hd. apply NoDup_elements.
  - set_solver.
  - done.
  - set_solver.
Qed.

Lemma review_round_only_shrinks_witness :
  wrong_words (self Demo.with_miss) ≠ ∅
  ∧ forallb plays Demo.calls = true
  ∧ wrong_words
      (self (run_calls Demo.calls (start_review_mode Demo.with_miss).2).2)
    ⊆ wrong_words (self Demo.with_miss).
Proof.
  assert (wrong_words (self Demo.with_miss) ≠ ∅) as Hne.
  { exact (non_empty_singleton_L (C:=gset WordEntry) Demo.run_runs). }
  destruct (review_round_only_shrinks Demo.calls Demo.with_miss Hne eq_refl)
    as (_ & _ & _ & H).
  split_and!; [exact Hne|reflexivity|exact H].
Defined.

(** X12. [start_game] leaves the wrong-word set as it was, and the
    playing calls after it touch the set only at entries the cursor has
    passed: what the set holds then was in it before or has been passed,
    what was in it before and has not been passed is still in it, and
    every entry passed is an entry of the deck dealt. *)
Theorem game_touches_only_served_entries
    (cs : list call) (s : State)
    (book : string) (units : list string) (fm om qm : string)
    (sfl row : bool) :
  forallb plays cs = true ->
  let dealt := (start_game book units fm om qm sfl row s).2 in
  let s' := (run_calls cs dealt).2 in
  wrong_words (self dealt) = wrong_words (self s)
  ∧ wrong_words (self s') ⊆ wrong_words (self s) ∪ served s'
  ∧ wrong_words (self s) ∖ served s' ⊆ wrong_words (self s')
  ∧ forall w, w ∈ served s' -> w ∈ current_deck (self dealt).
Proof.
  intros Hp dealt s'.
  assert (wrong_words (self dealt) = wrong_words (self s)
          ∧ current_index (self dealt) = 0) as (Hw & Hi).
  { subst dealt. by rewrite start_game_eq. }
  assert (cursor_ok dealt) as Hc.
  { unfold cursor_ok. rewrite Hi. unfold len. lia. }
  destruct (run_calls_plays_bounds cs dealt Hc Hp) as (_ & Hup & Hlo).
  fold s' in Hup, Hlo. rewrite Hw in Hup, Hlo.
  split_and!; try done.
  intros w Hin%served_subseteq_deck. subst s'.
  by rewrite (run_calls_plays_deck cs dealt Hp) in Hin.
Qed.

Lemma game_touches_only_served_entries_witness :
  forallb plays Demo.calls = true
  ∧ wrong_words (self Demo.with_miss)
      ∖ served (run_calls Demo.calls
                  (start_game "book1" ["unit1.csv"] "all" "sequential" "word"
                     false false Demo.with_miss).2).2
    ⊆ wrong_words
        (self (run_calls Demo.calls
                 (start_game "book1" ["unit1.csv"] "all" "sequential" "word"
                    false false Demo.with_miss).2).2).
Proof.
  destruct (game_touches_only_served_entries Demo.calls Demo.with_miss
              "book1" ["unit1.csv"] "all" "sequential" "word" false false
              eq_refl) as (_ & _ & H & _).
  split; [reflexivity|exact H].
Defined.

Lemma normalized_padded l u r :
  PyStr.blank l -> PyStr.blank r -> normalized (l +:+ u +:+ r) = normalized u.
Proof. intros Hl Hr. unfold normalized. by rewrite StripFacts.strip_padded. Qed.

Lemma normalized_lower u u' :
  PyStr.lower u = PyStr.lower u' -> normalized u = normalized u'.
Proof.
  intros H. unfold normalized. by rewrite <- !StripFacts.strip_lower, H.
Qed.

Lemma check_answer_normalized u u' s :
  normalized u = normalized u' -> check_answer u s = check_answer u' s.
Proof.
  intros H. rewrite !check_answer_eq.
  destruct (_ <=? _); [done|]. destruct (py_index _ _) as [w|]; [|done].
  assert (bool_decide (answer_matches u w) = bool_decide (answer_matches u' w))
    as ->; [|done].
  apply bool_decide_ext. unfold answer_matches. by rewrite H.
Qed.

(** X13. [check_answer] does not see white space around the input nor
    the case of its letters: two inputs that differ in those only give
    the same result and the same state. *)
Theorem check_answer_ignores_case_and_padding
    (before after u u' : string) (s : State) :
  PyStr.blank before -> PyStr.blank after -> PyStr.lower u = PyStr.lower u' ->
  check_answer (before +:+ u +:+ after) s = check_answer u' s.
Proof.
  intros Hl Hr Hu. apply check_answer_normalized.
  rewrite normalized_padded by done. by apply normalized_lower.
Qed.

Lemma check_answer_ignores_case_and_padding_witness :
  PyStr.blank " " ∧ PyStr.blank "  " ∧ PyStr.lower "RUN" = PyStr.lower "run"
  ∧ check_answer (" " +:+ "RUN" +:+ "  ") Demo.playing
    = check_answer "run" Demo.playing.
Proof.
  assert (PyStr.blank " ") as H1 by (repeat constructor).
  assert (PyStr.blank "  ") as H2 by (repeat constructor).
  split_and!; [exact H1|exact H2|reflexivity|].
  exact (check_answer_ignores_case_and_padding " " "  " "RUN" "run"
           Demo.playing H1 H2 eq_refl).
Defined.

Lemma py_index_from_end {A} (l : list A) (i : Z) :
  - len l <= i < 0 ->
  exists a, l !! Z.to_nat (len l + i) = Some a ∧ py_index l i = Return a.
Proof.
  unfold len. intros Hi.
  destruct (lookup_lt_is_Some_2 l (Z.to_nat (Z.of_nat (length l) + i)))
    as [a Ha]; [lia|].
  exists a. split; [done|]. unfold py_index.
  destruct (Z.ltb_spec i 0); [|lia].
  destruct (Z.ltb_spec (i + Z.of_nat (length l)) 0); [lia|].
  destruct (Z.leb_spec (Z.of_nat (length l)) (i + Z.of_nat (length l)));
    [lia|]. cbn.
  replace (i + Z.of_nat (length l)) with (Z.of_nat (length l) + i) by lia.
  by rewrite Ha.
Qed.

Lemma py_index_below {A} (l : list A) (i : Z) :
  i < - len l -> py_index l i = Raise IndexError.
Proof.
  unfold len, py_index. intros Hi.
  destruct (Z.ltb_spec i 0); [|lia].
  by destruct (Z.ltb_spec (i + Z.of_nat (length l)) 0); [|lia].
Qed.

(** X14. With a negative cursor the four calls index the deck from its
    end, as Python does.  For [-len <= i < 0], [get_next_question] returns
    the entry [len + i], [check_answer] judges the input against it and
    moves the cursor to [i + 1], and the two skips return it.  For
    [i < -len] the four calls raise [IndexError] and change nothing. *)
Theorem negative_cursor_counts_from_the_end (user_input : string) (s : State) :
  let i := current_index (self s) in
  let deck := current_deck (self s) in
  (- len deck <= i < 0 ->
   exists w,
     deck !! Z.to_nat (len deck + i) = Some w
     ∧ get_next_question s = (Return (Some w), s)
     ∧ (check_answer user_input s).1
       = Return (bool_decide (answer_matches user_input w))
     ∧ current_index (self (check_answer user_input s).2) = i + 1
     ∧ (skip_current_word s).1 = Return (Some w)
     ∧ (skip_without_penalty s).1 = Return (Some w))
  ∧ (i < - len deck ->
     get_next_question s = (Raise IndexError, s)
     ∧ check_answer user_input s = (Raise IndexError, s)
     ∧ skip_current_word s = (Raise IndexError, s)
     ∧ skip_without_penalty s = (Raise IndexError, s)).
Proof.
  intros i deck. subst i deck. split.
  - intros Hi.
    destruct (py_index_from_end (current_deck (self s))
                (current_index (self s)) Hi) as (w & Hw & Hp).
    exists w.
    rewrite get_next_question_eq, check_answer_eq, skip_current_word_eq,
      skip_without_penalty_eq, Hp.
    destruct (Z.leb_spec (len (current_deck (self s)))
                (current_index (self s))); [unfold len in *; lia|].
    by cbn.
  - intros Hi.
    rewrite get_next_question_eq, check_answer_eq, skip_current_word_eq,
      skip_without_penalty_eq, (py_index_below _ _ Hi).
    destruct (Z.leb_spec (len (current_deck (self s)))
                (current_index (self s))); [unfold len in *; lia|].
    done.
Qed.

Lemma negative_cursor_counts_from_the_end_witness :
  get_next_question
    (mkState (with_current_index (-1) (self Demo.playing)) Demo.world0)
  = (Return (Some Demo.cat),
     mkState (with_current_index (-1) (self Demo.playing)) Demo.world0)
  ∧ get_next_question
      (mkState (with_current_index (-4) (self Demo.playing)) Demo.world0)
    = (Raise IndexError,
       mkState (with_current_index (-4) (self Demo.playing)) Demo.world0).
Proof.
  destruct (negative_cursor_counts_from_the_end "x"
              (mkState (with_current_index (-1) (self Demo.playing))
                 Demo.world0)) as [Hin _].
  destruct (negative_cursor_counts_from_the_end "x"
              (mkState (with_current_index (-4) (self Demo.playing))
                 Demo.world0)) as [_ Hout].
  split.
  - destruct Hin as (w & Hw & Hq & _); [unfold len; cbn; lia|].
    cbn in Hw. injection Hw as <-. exact Hq.
  - destruct Hout as (Hq & _); [unfold len; cbn; lia|]. exact Hq.
Defined.

(** X15. [start_game] reads the engine only through its loader, its
    wrong-word set and the world: from two engines that agree on these it
    gives the same result and state, whatever deck, cursor and settings
    they had.  It returns normally; the word list is what the loader
    returned, the wrong-word set and its file stay as they were, and the
    three settings are stored as given. *)
Theorem start_game_replaces_the_deck
    (s s' : State) (book : string) (units : list string)
    (fm om qm : string) (sfl row : bool) :
  loader (self s') = loader (self s) ->
  wrong_words (self s') = wrong_words (self s) ->
  world s' = world s ->
  let r := start_game book units fm om qm sfl row s in
  start_game book units fm om qm sfl row s' = r
  ∧ r.1 = Return tt
  ∧ all_words (self r.2) = loaded_words s book units
  ∧ wrong_words (self r.2) = wrong_words (self s)
  ∧ wrong_words_file (world r.2) = wrong_words_file (world s)
  ∧ (question_mode (self r.2), show_first_letter (self r.2),
     retry_on_wrong (self r.2)) = (qm, sfl, row).
Proof.
  intros Hl Hw Hwd r. subst r. rewrite !start_game_eq, Hl, Hw, Hwd.
  cbn. split_and!; try done. by destruct (String.eqb om "random").
Qed.

Lemma start_game_replaces_the_deck_witness :
  loader (self Demo.playing) = loader (self Demo.idle)
  ∧ wrong_words (self Demo.playing) = wrong_words (self Demo.idle)
  ∧ world Demo.playing = world Demo.idle
  ∧ start_game "book1" ["unit1.csv"] "all" "random" "word" false true
      Demo.playing
    = start_game "book1" ["unit1.csv"] "all" "random" "word" false true
        Demo.idle.
Proof.
  split_and!; [reflexivity..|].
  exact (proj1 (start_game_replaces_the_deck Demo.idle Demo.playing "book1"
                  ["unit1.csv"] "all" "random" "word" false true
                  eq_refl eq_refl eq_refl)).
Defined.

Lemma entries_of_rows_elem rows ws :
  entries_of_rows rows = Return ws ->
  (forall w, w ∈ ws <-> exists row, row ∈ rows ∧ entry_of_json row = Return w)
  ∧ (size ws <= length rows)%nat.
Proof.
  revert ws. induction rows as [|row rows IH]; intros ws; cbn [entries_of_rows].
  - intros [= <-]. split; [|by rewrite size_empty].
    intros w. split; [set_solver|]. by intros (row & ?%elem_of_nil & _).
  - destruct (entry_of_json row) as [w0|e] eqn:E; [|done].
    destruct (entries_of_rows rows) as [ws0|e]; [|done].
    intros [= <-]. destruct (IH ws0 eq_refl) as [Hm Hs]. split.
    + intros w. rewrite elem_of_union, elem_of_singleton, Hm. split.
      * intros [->|(r & Hr & Hw)].
        -- exists row. split; [left|done].
        -- exists r. split; [by right|done].
      * intros (r & [->|Hr]%elem_of_cons & Hw).
        -- left. congruence.
        -- right. eauto.
    + pose proof (size_union_alt {[w0]} ws0) as Hu.
      assert (ws0 ∖ {[w0]} ⊆ ws0) as Hsub by set_solver.
      apply subseteq_size in Hsub.
      rewrite size_singleton in Hu. cbn [length]. lia.
Qed.

(** X16. A stored array that decodes to the set [ws]: an engine
    constructed on it starts with [ws] and prints its size; [ws] holds
    exactly the entries of the rows, so it has at most as many elements as
    there are rows (rows that repeat an entry count once); and the rows in
    any other order decode to the same set. *)
Theorem stored_rows_load_as_a_set (l : Model.DataLoader) (w : World)
    (rows : list json) (ws : gset WordEntry) :
  wrong_words_file w = FileJson (JArr rows) ->
  decode (JArr rows) = Return ws ->
  (wrong_words (self (init l w)) = ws
   ∧ stdout (world (init l w)) = stdout w ++ [LoadedWrongWords (size ws)])
  ∧ (forall e, e ∈ ws <->
       exists row, row ∈ rows ∧ entry_of_json row = Return e)
  ∧ (size ws <= length rows)%nat
  ∧ forall rows', rows' ≡ₚ rows ->
      forall ws', decode (JArr rows') = Return ws' -> ws' = ws.
Proof.
  intros Hf Hd. pose proof Hd as Hd0. cbn in Hd.
  destruct (entries_of_rows_elem rows ws Hd) as [Hm Hs].
  split_and!; try done.
  - rewrite (proj2 (init_eq _ _)), Hf. unfold stored_set. by rewrite Hd0.
  - rewrite (proj2 (init_eq _ _)), Hf. cbn [world stdout with_stdout].
    by rewrite Hd0.
  - intros rows' Hp ws' Hd'. cbn in Hd'.
    destruct (entries_of_rows_elem rows' ws' Hd') as [Hm' _].
    apply set_eq. intros e. rewrite Hm, Hm'.
    split; intros (r & Hr & He); exists r; (split; [|done]).
    + by rewrite <- Hp.
    + by rewrite Hp.
Qed.

Lemma stored_rows_load_as_a_set_witness :
  wrong_words
    (self (init Demo.the_loader
             (with_file (FileJson (JArr [asdict Demo.cat; asdict Demo.cat]))
                Demo.world0)))
  = {[Demo.cat]} ∪ ({[Demo.cat]} ∪ ∅).
Proof.
  destruct (stored_rows_load_as_a_set Demo.the_loader
              (with_file (FileJson (JArr [asdict Demo.cat; asdict Demo.cat]))
                 Demo.world0)
              [asdict Demo.cat; asdict Demo.cat]
              ({[Demo.cat]} ∪ ({[Demo.cat]} ∪ ∅)) eq_refl eq_refl)
    as ((Hw & _) & _).
  exact Hw.
Defined.

End Play.

(* ===================================================================== *)
(** * The window *)
(* ===================================================================== *)

Module WindowFacts.
Import Window.

#[local] Arguments get_next_question : simpl never.
#[local] Arguments check_answer : simpl never.
#[local] Arguments skip_without_penalty : simpl never.
#[local] Arguments clear_wrong_words_cache : simpl never.
#[local] Arguments Engine.start_game : simpl never.
#[local] Arguments start_review_mode : simpl never.

Ltac wmonad :=
  unfold wbind, wret, wlift, read, write, on_engine; cbn.

Lemma moved_same s : moved (current_index (self s)) s = s.
Proof. by destruct s as [[] ?]. Qed.

Lemma ask_loop_unfold budget w :
  cursor_ok (engine w) ->
  ask_loop budget w =
  match current_deck (self (engine w))
          !! Z.to_nat (current_index (self (engine w))) with
  | None => (Return false, mkWindow (engine w) (keybindings w) None false)
  | Some word =>
      if is_valid_question (question_mode (self (engine w))) word
      then (Return true, with_current_word (Some word) w)
      else
        let w1 := mkWindow (moved (current_index (self (engine w)) + 1)
                              (engine w))
                    (keybindings w) (Some word) (input_enabled w) in
        match budget with
        | S (S _ as rest) => ask_loop rest w1
        | _ => (Return false, with_input_enabled false w1)
        end
  end.
Proof.
  intros Hc.
  destruct (current_deck (self (engine w))
              !! Z.to_nat (current_index (self (engine w)))) as [word|] eqn:Hw.
  - destruct (cursor_lookup _ word Hc Hw) as [Hlt Hp].
    destruct budget as [|[|b]]; cbn [ask_loop]; wmonad;
      rewrite get_next_question_eq, Hlt, Hp; cbn;
      destruct (is_valid_question _ word); try done.
  - destruct (cursor_lookup_None _ Hc Hw) as [Hle _].
    destruct budget as [|[|b]]; cbn [ask_loop]; wmonad;
      by rewrite get_next_question_eq, Hle.
Qed.

Lemma ask_loop_asked budget w :
  cursor_ok (engine w) ->
  exists found w', ask_loop budget w = (Return found, w') ∧ asked w w' found.
Proof.
  revert w. induction budget as [budget IH] using lt_wf_ind. intros w Hc.
  rewrite (ask_loop_unfold budget w Hc).
  destruct (current_deck (self (engine w))
              !! Z.to_nat (current_index (self (engine w)))) as [word|] eqn:Hw.
  - destruct (is_valid_question _ word) eqn:Hv.
    + exists true, (with_current_word (Some word) w). split; [done|].
      unfold asked. cbn. rewrite moved_same.
      split_and!; try done; try (destruct Hc; lia); try (intros; lia).
      by exists word.
    + cbn zeta.
      set (w1 := mkWindow _ _ _ _).
      assert (current_index (self (engine w)) + 1
              <= len (current_deck (self (engine w)))) as Hle.
      { apply lookup_lt_Some in Hw. unfold len. destruct Hc. lia. }
      assert (forall j, current_index (self (engine w)) <= j
                        < current_index (self (engine w)) + 1 ->
                exists word0,
                  current_deck (self (engine w)) !! Z.to_nat j = Some word0
                  ∧ is_valid_question (question_mode (self (engine w))) word0
                    = false) as Hskip.
      { intros j Hj. replace j with (current_index (self (engine w))) by lia.
        by exists word. }
      destruct budget as [|[|b]].
      * exists false, (with_input_enabled false w1). split; [done|].
        unfold asked. cbn. split_and!; try done; try (destruct Hc; lia).
      * exists false, (with_input_enabled false w1). split; [done|].
        unfold asked. cbn. split_and!; try done; try (destruct Hc; lia).
      * assert (cursor_ok (engine w1)) as Hc1.
        { unfold cursor_ok. cbn. destruct Hc. lia. }
        destruct (IH (S b) ltac:(lia) w1 Hc1) as (found & w' & -> & Ha).
        exists found, w'. split; [done|].
        destruct Ha as (He & Hk & Hi & Hs & Hf). cbn in He, Hk, Hi, Hs, Hf.
        unfold asked. cbn zeta.
        split; [rewrite He; unfold moved; by cbn|].
        split; [done|].
        split; [destruct Hc; lia|].
        split; [|done].
        intros j Hj.
        destruct (decide (j < current_index (self (engine w)) + 1)).
        -- apply Hskip. lia.
        -- apply Hs. lia.
  - exists false, (mkWindow (engine w) (keybindings w) None false).
    split; [done|]. unfold asked. cbn. rewrite moved_same.
    split_and!; try done; try (destruct Hc; lia); intros; lia.
Qed.

End WindowFacts.

Module SlotFacts.
Import Window WindowFacts.
#[local] Arguments get_next_question : simpl never.
#[local] Arguments check_answer : simpl never.
#[local] Arguments skip_without_penalty : simpl never.
#[local] Arguments clear_wrong_words_cache : simpl never.
#[local] Arguments Engine.start_game : simpl never.
#[local] Arguments start_review_mode : simpl never.
#[local] Arguments ask_loop : simpl never.
#[local] Arguments ask_next_question : simpl never.
#[local] Arguments start_review : simpl never.
#[local] Arguments handle_action : simpl never.
#[local] Arguments submit_answer : simpl never.
#[local] Arguments _reprint_current_question : simpl never.

(** ** The first letter *)

Lemma clean_english_before_first word :
  _get_clean_english word
  = Return (PyStr.strip (before_first "," (english word))).
Proof.
  unfold _get_clean_english.
  by destruct (PyStrFacts.split_head "," (english word)) as [tl ->].
Qed.

Lemma first_letter_eq word :
  first_letter word =
  match PyStr.strip (before_first "," (english word)) with
  | EmptyString => Raise IndexError
  | String c _ => Return (PyStr.lower (String c EmptyString))
  end.
Proof.
  unfold first_letter. rewrite clean_english_before_first.
  pose proof (PyStrFacts.strip_spec (before_first "," (english word)))
    as (_ & _ & _ & _ & _ & Hs & _).
  destruct (PyStr.strip _) as [|c r]; [done|].
  destruct (PyStrFacts.split_head " " (String c r)) as [tl ->].
  cbn in Hs. cbn [py_index]. unfold py_index. cbn.
  destruct (Ascii.eqb_spec c " ") as [->|_]; [|done].
  by destruct Hs.
Qed.

Lemma first_letter_raises word :
  first_letter word = Raise IndexError
  <-> PyStr.blank (before_first "," (english word)).
Proof.
  rewrite first_letter_eq, <- StripFacts.strip_empty_iff.
  by destruct (PyStr.strip _).
Qed.

Lemma first_letter_outcome word :
  (exists a, first_letter word = Return a)
  ∨ first_letter word = Raise IndexError.
Proof. rewrite first_letter_eq. destruct (PyStr.strip _); eauto. Qed.

(** ** Engine calls seen from the window *)

Lemma with_engine_same w : with_engine (engine w) w = w.
Proof. by destruct w. Qed.

Lemma keeps_same w : shows_current w -> keeps w w.
Proof. by split. Qed.

Lemma moved_cursor_ok i s :
  0 <= i <= len (current_deck (self s)) -> cursor_ok (moved i s).
Proof. by unfold cursor_ok. Qed.

Lemma moved_synced i s : synced s -> synced (moved i s).
Proof. by unfold synced, in_sync. Qed.

(** A draw leaves all but the generator. *)
Lemma prompted_but_random sentences word s :
  self (prompted sentences word s) = self s
  ∧ wrong_words_file (world (prompted sentences word s))
    = wrong_words_file (world s)
  ∧ wrong_words_writable (world (prompted sentences word s))
    = wrong_words_writable (world s)
  ∧ stdout (world (prompted sentences word s)) = stdout (world s).
Proof.
  unfold prompted. destruct (String.eqb _ _); [|done].
  destruct (first_letter word); [|done]. by destruct (_ <? _)%nat.
Qed.

Lemma keeps_prompted sentences word w w' :
  keeps w w' ->
  keeps w (with_engine (prompted sentences word (engine w')) w').
Proof.
  destruct (prompted_but_random sentences word (engine w'))
    as (Hs & Hf & Hw & _).
  intros [[Hc Hshow] Hsy]. split; [split|].
  - unfold cursor_ok. cbn. by rewrite Hs.
  - cbn. by rewrite Hs.
  - intros H. destruct (Hsy H) as [Hw' Hin]. unfold synced, in_sync. cbn.
    by rewrite Hs, Hf, Hw.
Qed.

Lemma asked_shows w w' found :
  cursor_ok (engine w) ->
  asked w w' found -> keeps w w'.
Proof.
  intros Hc (He & _ & Hi & _ & Hf). split; [split|].
  - rewrite He. apply moved_cursor_ok. destruct Hc. lia.
  - intros Hen. destruct found; [|congruence].
    destruct Hf as (_ & word & Hw & Hd & _). exists word. split; [done|].
    by rewrite He.
  - rewrite He. apply moved_synced.
Qed.

Lemma call_synced c s : synced s -> synced (run_call c s).2.
Proof. intros [Hw Hs]. by apply run_call_in_sync. Qed.

Lemma saved_synced s :
  wrong_words_writable (world s) = true ->
  synced (_save_wrong_words_to_disk s).2.
Proof.
  intros Hw. rewrite save_eq. unfold synced, in_sync. cbn.
  rewrite writable_after_save, file_after_save, Hw.
  split; [done|]. apply stored_set_encode.
Qed.

Lemma reprint_same w :
  (_reprint_current_question w).2 = w.
Proof.
  unfold _reprint_current_question. wmonad.
  destruct (current_word w) as [word|]; [|done]. cbn.
  destruct (show_first_letter _); [|done]. cbn.
  by destruct (first_letter word).
Qed.

Section Slots.
Variable sentences_of : string -> list string.

(** ** Asking *)

Lemma show_question_eq word w :
  show_question sentences_of word w =
  (prompt_outcome (question_mode (self (engine w)))
     (show_first_letter (self (engine w))) word,
   with_engine (prompted (sentences_of (examples word)) word (engine w)) w).
Proof.
  unfold show_question, prompt_outcome, prompted, random_choice, drawn.
  wmonad.
  destruct (first_letter_outcome word) as [[a ->]| ->];
    destruct (String.eqb _ "example"), (show_first_letter _); cbn;
    destruct (length (sentences_of (examples word))) as [|[|n]]; cbn;
    by rewrite ?with_engine_same.
Qed.

Lemma ask_next_question_asked w :
  cursor_ok (engine w) ->
  exists found w',
    ask_loop (length (current_deck (self (engine w)))) w = (Return found, w')
    ∧ asked w w' found
    ∧ ask_next_question sentences_of w =
      (if found
       then match current_word w' with
            | Some word =>
                (prompt_outcome (question_mode (self (engine w)))
                   (show_first_letter (self (engine w))) word,
                 with_engine
                   (prompted (sentences_of (examples word)) word (engine w'))
                   w')
            | None => (Return tt, w')
            end
       else (Return tt, w')).
Proof.
  intros Hc.
  destruct (ask_loop_asked (length (current_deck (self (engine w)))) w Hc)
    as (found & w' & Hl & Ha).
  exists found, w'. split; [done|]. split; [done|].
  unfold ask_next_question. wmonad. rewrite Hl.
  destruct found; [|done]. cbn.
  destruct Ha as (He & _ & _ & _ & _ & word & Hw & _).
  rewrite Hw, show_question_eq, He. by cbn.
Qed.

Lemma ask_next_question_shows w :
  cursor_ok (engine w) ->
  keeps w (ask_next_question sentences_of w).2.
Proof.
  intros Hc.
  destruct (ask_next_question_asked w Hc) as (f & w' & _ & Ha & ->).
  pose proof (asked_shows w w' f Hc Ha) as Hk.
  destruct f; [|done]. destruct (current_word w'); [|done].
  by apply keeps_prompted.
Qed.

(** ** The slots *)

Lemma start_game_shows b u c o q sfl row w :
  shows_current w ->
  keeps w (Window.start_game sentences_of b u c o q sfl row w).2.
Proof.
  intros Hs. unfold Window.start_game.
  destruct u as [|u0 u]; [by apply keeps_same|].
  wmonad.
  set (fm := if c =? 1 then _ else _). set (om := if o =? 1 then _ else _).
  set (qm := if q =? 1 then _ else _).
  pose proof (start_game_eq b (u0 :: u) fm om qm sfl row (engine w)) as E.
  destruct (Engine.start_game b (u0 :: u) fm om qm sfl row (engine w))
    as [o1 s1] eqn:E1.
  injection E as -> Es1.
  set (w1 := with_input_enabled true (with_engine s1 w)).
  assert (cursor_ok (engine w1)) as Hc1.
  { cbn. rewrite Es1. unfold cursor_ok, len. cbn. lia. }
  destruct (ask_next_question_shows w1 Hc1) as [H1 H2].
  split; [done|]. intros Hsy. apply H2. cbn.
  pose proof (call_synced (StartGame b (u0 :: u) fm om qm sfl row) _ Hsy) as H.
  cbn in H. by rewrite E1 in H.
Qed.

Lemma start_review_shows w :
  shows_current w ->
  keeps w (start_review sentences_of w).2.
Proof.
  intros Hs. unfold start_review. wmonad.
  pose proof (call_synced StartReviewMode (engine w)) as Hsy. cbn in Hsy.
  destruct (decide (wrong_words (self (engine w)) = ∅)) as [E|E].
  - rewrite (start_review_mode_empty _ E) in *. cbn.
    split; [|done]. destruct Hs as [Hc Hs]. split; [done|]. done.
  - rewrite (start_review_mode_nonempty _ E) in *. cbn zeta in *. cbn.
    match goal with
    | |- context [ask_next_question _ ?w1] =>
        assert (cursor_ok (engine w1)) as Hc1
          by (unfold cursor_ok, len; cbn; lia);
        destruct (ask_next_question_shows w1 Hc1) as [H1 H2]
    end.
    split; [done|]. intros H. apply H2. cbn.
    specialize (Hsy H). by destruct Hsy.
Qed.

Lemma clear_wrong_words_shows w :
  shows_current w ->
  keeps w (clear_wrong_words w).2.
Proof.
  intros Hs. unfold clear_wrong_words. wmonad. rewrite save_eq. cbn.
  split; [done|]. intros [Hw _].
  pose proof (saved_synced (mkState (with_wrong_words ∅ (self (engine w)))
                              (world (engine w))) Hw) as H.
  by rewrite save_eq in H.
Qed.

Lemma skip_then_ask_shows w :
  shows_current w ->
  keeps w ((_ <~ on_engine skip_without_penalty ;;
            ask_next_question sentences_of) w).2.
Proof.
  intros [Hc Hs]. wmonad.
  destruct (run_call_cursor_ok SkipWithoutPenalty (engine w) Hc) as [Hr Hc1].
  pose proof (call_synced SkipWithoutPenalty (engine w)) as Hsy.
  cbn in Hr, Hc1, Hsy. unfold raises in Hr.
  destruct (skip_without_penalty (engine w)) as [[o|e] s1]; [|done]. cbn.
  destruct (ask_next_question_shows (with_engine s1 w) Hc1) as [H1 H2].
  split; [done|]. intros H. apply H2. cbn. by apply Hsy.
Qed.

Lemma handle_action_shows a w :
  shows_current w ->
  keeps w (handle_action sentences_of a w).2.
Proof.
  intros Hs. unfold handle_action.
  unfold wbind at 1. unfold read at 1.
  destruct (negb (input_enabled w) && _); [by apply keeps_same|].
  destruct (String.eqb a "action_skip_no_penalty");
    [exact (skip_then_ask_shows w Hs)|].
  destruct (String.eqb a "action_clear_cache").
  { unfold on_engine. rewrite clear_wrong_words_cache_eq. cbn.
    split; [done|].
    intros H. pose proof (call_synced ClearWrongWordsCache _ H) as H'.
    cbn in H'. by rewrite clear_wrong_words_cache_eq in H'. }
  destruct (String.eqb a "action_clear_screen").
  { wmonad. destruct (current_word w); [|done]. by rewrite reprint_same. }
  destruct (String.eqb a "action_start_review");
    [by apply start_review_shows|by apply keeps_same].
Qed.

Lemma submit_answer_shows text w :
  shows_current w -> input_enabled w = true ->
  keeps w (submit_answer sentences_of text w).2.
Proof.
  intros Hs Hen. unfold submit_answer.
  unfold wbind at 1. unfold read at 1.
  destruct (keybindings w !! PyStr.strip text) as [a|];
    [by apply handle_action_shows|].
  wmonad. destruct Hs as [Hc Hs].
  destruct (Hs Hen) as (word & Hw & Hd). rewrite Hw. cbn.
  pose proof (call_synced (CheckAnswer (PyStr.strip text)) (engine w)) as Hsy.
  cbn in Hsy. rewrite check_answer_eq in *.
  destruct (cursor_lookup _ word Hc Hd) as [Hlt Hp].
  rewrite Hlt, Hp in *. cbn zeta in *.
  set (ok := bool_decide _) in *. set (s1 := mkState _ _) in *. cbn.
  assert (cursor_ok s1) as Hc1.
  { unfold cursor_ok. cbn. apply lookup_lt_Some in Hd. unfold len.
    destruct Hc. lia. }
  destruct ok.
  - destruct (ask_next_question_shows (with_engine s1 w) Hc1) as [H1 H2].
    split; [done|]. intros H. apply H2. cbn. by apply Hsy.
  - cbn. destruct (retry_on_wrong (self (engine w))); cbn.
    + split; [split|].
      * unfold cursor_ok in *. cbn. unfold len in *. lia.
      * intros _. exists word. cbn. split; [done|].
        replace (current_index (self (engine w)) + 1 - 1)
          with (current_index (self (engine w))) by lia. done.
      * intros H. by apply (moved_synced _ s1), Hsy.
    + destruct (ask_next_question_shows (with_engine s1 w) Hc1) as [H1 H2].
      split; [done|]. intros H. apply H2. cbn. by apply Hsy.
Qed.

Lemma dispatch_shows e w :
  shows_current w ->
  keeps w (dispatch sentences_of e w).2.
Proof.
  intros Hs. destruct e; cbn [dispatch].
  - by apply start_game_shows.
  - by apply start_review_shows.
  - by apply clear_wrong_words_shows.
  - unfold wbind at 1. unfold read at 1.
    destruct (input_enabled w) eqn:E;
      [by apply submit_answer_shows|by apply keeps_same].
Qed.

End Slots.

End SlotFacts.

Section WindowProperties.
Import LoaderWords ModelFacts Window WindowFacts SlotFacts.
#[local] Set Warnings "-clear-no-such-hyp".
#[local] Arguments get_next_question : simpl never.
#[local] Arguments check_answer : simpl never.
#[local] Arguments skip_without_penalty : simpl never.
#[local] Arguments clear_wrong_words_cache : simpl never.
#[local] Arguments Engine.start_game : simpl never.
#[local] Arguments start_review_mode : simpl never.
#[local] Arguments ask_next_question : simpl never.

(** X17. The first-letter hint of [ask_next_question] and
    [_reprint_current_question].  Building it raises [IndexError] exactly
    when the english field is empty or white space only before its first
    comma; otherwise it is the first character of that part, trimmed,
    which is no white space, in lower case. *)
Theorem first_letter_hint (word : WordEntry) :
  (first_letter word = Raise IndexError
   <-> PyStr.blank (before_first "," (english word)))
  ∧ forall c rest,
      PyStr.strip (before_first "," (english word)) = String c rest ->
      PyStr.isspace c = false
      ∧ first_letter word = Return (PyStr.lower (String c EmptyString)).
Proof.
  split; [apply first_letter_raises|].
  intros c rest E. rewrite first_letter_eq, E. split; [|done].
  pose proof (PyStrFacts.strip_spec (before_first "," (english word)))
    as (_ & _ & _ & _ & _ & Hs & _).
  rewrite E in Hs. cbn in Hs. by destruct (PyStr.isspace c); [destruct Hs|].
Qed.

Lemma before_first_blank_tidy s :
  s ≠ EmptyString -> ¬ PyStr.starts_blank s ->
  (PyStr.blank (before_first "," s) <-> exists rest, s = String "," rest).
Proof.
  intros Hne Hsb. destruct s as [|c r]; [done|]. cbn [before_first].
  destruct (Ascii.eqb_spec c ",") as [->|Hc].
  - split; [eauto|]. intros _. constructor.
  - split.
    + intros Hb. apply Forall_cons in Hb as [Hb _]. by destruct Hsb.
    + intros [rest [= ? ?]]. done.
Qed.

(** X18. For an entry that [load_word_list] returned, building the
    first-letter hint raises exactly when the english field begins with a
    comma. *)
Theorem loaded_entry_hint
    (self : Model.DataLoader) (fs : Model.FileSystem)
    (book : string) (units : list string) (word : WordEntry) :
  word ∈ (Model.load_word_list self fs book units).1 ->
  first_letter word = Raise IndexError
  <-> exists rest, english word = String "," rest.
Proof.
  intros (row & -> & Hrow)%elem_of_load.
  rewrite first_letter_raises. apply before_first_blank_tidy.
  - apply entry_kept_iff in Hrow.
    by destruct (english (Model.entry_of_row row)).
  - by destruct (entry_of_row_tidy row) as [[? _] _].
Qed.

Lemma loaded_entry_hint_witness :
  Demo.cat ∈ (Model.load_word_list Demo.the_loader Demo.files "book1"
                ["unit1.csv"]).1
  ∧ (first_letter Demo.cat = Raise IndexError
     <-> exists rest, english Demo.cat = String "," rest).
Proof.
  assert (Demo.cat ∈ (Model.load_word_list Demo.the_loader Demo.files "book1"
                        ["unit1.csv"]).1) as H.
  { vm_compute. do 2 constructor. constructor. }
  split; [exact H|].
  exact (loaded_entry_hint Demo.the_loader Demo.files "book1" ["unit1.csv"]
           Demo.cat H).
Defined.

Lemma valid_in_word_mode mode word :
  mode ≠ "example" -> is_valid_question mode word = true.
Proof.
  intros H. unfold is_valid_question.
  by destruct (String.eqb_spec mode "example").
Qed.

(** X19. [ask_next_question] with the cursor within bounds, whatever the
    sentences of the examples are.  Its loop changes the engine in its
    cursor only, which moves forward, within the deck, past entries that
    are no question in the current mode; it ends with an entry that is a
    question under the cursor and on display, the input line as it was,
    or with the input line disabled.  In the first case the prompt is
    built: the call raises exactly where working out the first letter
    does, and the engine is left as the loop left it but for one draw
    from the generator, made in example mode when the example has
    several sentences.  In the second case the call returns and leaves
    the window as the loop left it.  Outside example mode the engine is
    as it was before the call. *)
Theorem ask_next_question_spec
    (sentences_of : string -> list string) (w : MainWindow) :
  cursor_ok (engine w) ->
  exists found w',
    ask_loop (length (current_deck (self (engine w)))) w = (Return found, w')
    ∧ asked w w' found
    ∧ ask_next_question sentences_of w =
      (if found
       then match current_word w' with
            | Some word =>
                (prompt_outcome (question_mode (self (engine w)))
                   (show_first_letter (self (engine w))) word,
                 with_engine
                   (prompted (sentences_of (examples word)) word (engine w'))
                   w')
            | None => (Return tt, w')
            end
       else (Return tt, w'))
    ∧ (question_mode (self (engine w)) ≠ "example" ->
       engine (ask_next_question sentences_of w).2 = engine w).
Proof.
  intros Hc.
  destruct (ask_next_question_asked sentences_of w Hc)
    as (found & w' & Hl & Ha & E).
  exists found, w'. rewrite E. split_and!; try done.
  intros Hm. destruct Ha as (He & _ & Hi & Hskip & Hf).
  assert (engine w' = engine w) as Hsame.
  { destruct (decide (current_index (self (engine w))
                      < current_index (self (engine w')))) as [Hlt|Hge].
    - destruct (Hskip (current_index (self (engine w))))
        as (word & _ & Hv); [lia|].
      by rewrite valid_in_word_mode in Hv.
    - rewrite He.
      replace (current_index (self (engine w')))
        with (current_index (self (engine w))) by lia.
      apply moved_same. }
  destruct found; [|done]. destruct (current_word w'); [|done]. cbn.
  unfold prompted. rewrite Hsame.
  by destruct (String.eqb_spec (question_mode (self (engine w))) "example").
Qed.

(** The example of two sentences: the prompt draws once. *)
Lemma ask_next_question_spec_witness :
  cursor_ok (engine WindowDemo.by_example)
  ∧ Random.consumed
      (random (world (engine (ask_next_question WindowDemo.at_semicolons
                                WindowDemo.by_example).2))) = 1%nat.
Proof.
  assert (cursor_ok (engine WindowDemo.by_example)) as H
    by (unfold cursor_ok, len; cbn; lia).
  split; [exact H|].
  destruct (ask_next_question_spec WindowDemo.at_semicolons
              WindowDemo.by_example H) as (found & w' & Hl & _ & E & _).
  vm_compute in Hl. injection Hl as <- <-. rewrite E. reflexivity.
Defined.

(** X20. Whatever the user does (start a game, start a review, clear
    the wrong words, press return on any text), and also when a slot ends
    in an exception: the cursor stays within the deck and, while the input
    line is enabled, the word on display is the entry under the cursor.
    And a file that can be written and agrees with the wrong-word set
    still agrees with it afterwards. *)
Theorem window_keeps_display_and_file
    (sentences_of : string -> list string) (es : list event)
    (w : MainWindow) :
  shows_current w ->
  shows_current (run_events sentences_of es w).2
  ∧ (synced (engine w) ->
     synced (engine (run_events sentences_of es w).2)).
Proof.
  revert w. induction es as [|e es IH]; intros w Hs; [done|].
  cbn [run_events]. destruct (dispatch_shows sentences_of e w Hs) as [H1 H2].
  destruct (dispatch sentences_of e w) as [[o|x] w1]; [|done].
  destruct (IH w1 H1) as [I1 I2]. split; [done|]. auto.
Qed.

Lemma window_keeps_display_and_file_witness :
  shows_current WindowDemo.asking
  ∧ shows_current
      (run_events WindowDemo.at_semicolons WindowDemo.session
         WindowDemo.asking).2
  ∧ (synced (engine WindowDemo.asking) ->
     synced (engine (run_events WindowDemo.at_semicolons WindowDemo.session
                       WindowDemo.asking).2)).
Proof.
  assert (shows_current WindowDemo.asking) as H.
  { split; [unfold cursor_ok, len; cbn; lia|].
    intros _. by exists Demo.run_runs. }
  split; [exact H|].
  exact (window_keeps_display_and_file WindowDemo.at_semicolons
           WindowDemo.session WindowDemo.asking H).
Defined.

Lemma answer_matches_strip text word :
  answer_matches (PyStr.strip text) word <-> answer_matches text word.
Proof.
  unfold answer_matches, normalized. by rewrite StripFacts.strip_idempotent.
Qed.

(** X21. With retry on wrong answers ticked, a wrong answer that is no
    key binding leaves the cursor and the word on display where they were:
    the slot returns, and the engine differs only in that the entry is in
    the wrong-word set, which has been saved. *)
Theorem wrong_answer_is_asked_again
    (sentences_of : string -> list string)
    (text : string) (word : WordEntry) (w : MainWindow) :
  shows_current w -> input_enabled w = true ->
  current_word w = Some word ->
  keybindings w !! PyStr.strip text = None ->
  ¬ answer_matches text word ->
  retry_on_wrong (self (engine w)) = true ->
  let missed := {[word]} ∪ wrong_words (self (engine w)) in
  submit_answer sentences_of text w =
  (Return tt,
   with_engine (mkState (with_wrong_words missed (self (engine w)))
                  (after_save missed (world (engine w)))) w).
Proof.
  intros [Hc Hs] Hen Hw Hk Hno Hr missed.
  destruct (Hs Hen) as (word' & Hw' & Hd).
  assert (word' = word) as -> by congruence.
  destruct (cursor_lookup _ word Hc Hd) as [Hlt Hp].
  unfold submit_answer. wmonad. rewrite Hk, Hw. cbn.
  rewrite check_answer_eq, Hlt, Hp. cbn zeta.
  rewrite bool_decide_eq_false_2 by by rewrite answer_matches_strip.
  cbn. rewrite Hr. cbn. subst missed.
  unfold with_engine, with_current_index, with_wrong_words. cbn.
  repeat f_equal. lia.
Qed.

Lemma wrong_answer_is_asked_again_witness :
  shows_current WindowDemo.retrying
  ∧ submit_answer WindowDemo.at_semicolons "dog" WindowDemo.retrying =
    (Return tt,
     with_engine
       (mkState
          (with_wrong_words
             ({[Demo.run_runs]}
              ∪ wrong_words (self (engine WindowDemo.retrying)))
             (self (engine WindowDemo.retrying)))
          (after_save
             ({[Demo.run_runs]}
              ∪ wrong_words (self (engine WindowDemo.retrying)))
             (world (engine WindowDemo.retrying))))
       WindowDemo.retrying).
Proof.
  assert (shows_current WindowDemo.retrying) as H.
  { split; [unfold cursor_ok, len; cbn; lia|].
    intros _. by exists Demo.run_runs. }
  assert (¬ answer_matches "dog" Demo.run_runs) as Hno.
  { intros E. vm_compute in E. discriminate E. }
  split; [exact H|].
  exact (wrong_answer_is_asked_again WindowDemo.at_semicolons "dog"
           Demo.run_runs WindowDemo.retrying
           H eq_refl eq_refl eq_refl Hno eq_refl).
Defined.

(** X22. The button that clears the wrong words and the key binding
    [action_clear_cache] do the same to the engine and to the file, with
    the input line enabled or not: the set is empty and saved, the rest of
    the engine is as it was.  The key binding prints a line in addition. *)
Theorem clear_button_and_command_agree
    (sentences_of : string -> list string) (w : MainWindow) :
  let cleared :=
    mkState (with_wrong_words ∅ (self (engine w)))
            (after_save ∅ (world (engine w))) in
  clear_wrong_words w = (Return tt, with_engine cleared w)
  ∧ handle_action sentences_of "action_clear_cache" w =
    (Return tt,
     with_engine
       (mkState (self cleared)
          (with_stdout (stdout (world cleared) ++ [CacheCleared])
             (world cleared))) w).
Proof.
  intros cleared. split.
  - unfold clear_wrong_words. wmonad. rewrite save_eq. by cbn.
  - unfold handle_action. wmonad. rewrite andb_false_r. cbn.
    by rewrite clear_wrong_words_cache_eq.
Qed.

(** X23. The answer the window shows as the correct one,
    [_get_clean_english] of the entry under the cursor, is accepted by
    [check_answer]: it returns [True] and only moves the cursor on. *)
Theorem shown_answer_is_accepted (word : WordEntry) (s : State) :
  cursor_ok s ->
  current_deck (self s) !! Z.to_nat (current_index (self s)) = Some word ->
  exists answer,
    _get_clean_english word = Return answer
    ∧ check_answer answer s
      = (Return true, moved (current_index (self s) + 1) s).
Proof.
  intros Hc Hd. destruct (cursor_lookup _ word Hc Hd) as [Hlt Hp].
  exists (PyStr.strip (before_first "," (english word))).
  split; [apply clean_english_before_first|].
  rewrite check_answer_eq, Hlt, Hp. cbn zeta.
  rewrite bool_decide_eq_true_2 by by apply answer_matches_strip.
  by destruct s as [[] ?].
Qed.

Lemma shown_answer_is_accepted_witness :
  cursor_ok Demo.playing
  ∧ exists answer,
      _get_clean_english Demo.run_runs = Return answer
      ∧ check_answer answer Demo.playing
        = (Return true,
           moved (current_index (self Demo.playing) + 1) Demo.playing).
Proof.
  assert (cursor_ok Demo.playing) as H by (unfold cursor_ok, len; cbn; lia).
  split; [exact H|].
  exact (shown_answer_is_accepted Demo.run_runs Demo.playing H eq_refl).
Defined.

End WindowProperties.
